(** * kawin.mobility_fitting.manual_fitting

    A shallow embedding of [manual_fitting.py]: the two site-fraction
    generators, [least_squares_fit] and [fit], with the properties of the
    fitting engine stated over them.

    Numbers are exact rationals ([Q]); numpy's [log] and [linalg.lstsq] and
    the pycalphad constructors are external to the repository and enter as
    section variables.  Where the rounding of Python's floats decides what
    the code does, the code is given on binary64 numbers as well
    ([Binary64], [Composition]).  Python exceptions are values of [exn]
    carried by the [result] monad. *)

From Stdlib Require Import QArith Lqa Qfield.
From Stdlib Require PrimFloat.
From stdpp Require Import base option list gmap strings sorting pretty.

Open Scope Q_scope.

(** ** Python exceptions and the error monad *)

Inductive exn : Set :=
  | IndexError
  | KeyError
  | ValueError
  | AttributeError
  | ZeroDivisionError
  | LinAlgError
  | EquilibriumError.

Inductive result (A : Type) : Type :=
  | Ok (a : A)
  | Raise (e : exn).
Arguments Ok {A} a.
Arguments Raise {A} e.

#[global] Instance result_ret : MRet result := fun A a => Ok a.
#[global] Instance result_bind : MBind result := fun A B f m =>
  match m with
  | Ok a => f a
  | Raise e => Raise e
  end.
#[global] Instance result_fmap : FMap result := fun A B f m =>
  match m with
  | Ok a => Ok (f a)
  | Raise e => Raise e
  end.

Definition is_Ok {A} (m : result A) : Prop := exists a, m = Ok a.

(** ** Numbers *)

(** A Python [int] ([len(...)], a loop index) used in float arithmetic. *)
Definition Qnat (n : nat) : Q := inject_Z (Z.of_nat n).

(** Python's [a / b] on numbers: a zero divisor raises. *)
Definition py_div (a b : Q) : result Q :=
  if Qeq_bool b 0 then Raise ZeroDivisionError else Ok (a / b).

(** [np.sum] of a one-dimensional array. *)
Definition np_sum (l : list Q) : Q := fold_left Qplus l 0.

(** One entry of [np.matmul(A, x)] for a row of [A]. *)
Definition dot (r x : list Q) : Q := np_sum (zip_with Qmult r x).

(** [np.matmul(A, x)] for a two-dimensional [A] and a one-dimensional [x]. *)
Definition matmul (A : list (list Q)) (x : list Q) : list Q :=
  map (fun r => dot r x) A.

(** ** least_squares_fit *)

Module LeastSquares.
Section LeastSquares.

(** [np.linalg.lstsq(A, b, rcond=None)[0]]: the least-squares solution, or
    numpy's error when the shapes do not fit. *)
Variable lstsq : list (list Q) -> list Q -> result (list Q).
(** [np.log]. *)
Variable np_log : Q -> Q.

(** [rss = np.sum((b_pred-b)**2)] with [b_pred = np.matmul(A, x)]. *)
Definition residual_sum_of_squares (A : list (list Q)) (x b : list Q) : Q :=
  let b_pred := matmul A x in
  np_sum (map (fun d => d ^ 2) (zip_with Qminus b_pred b)).

(** Lines 91-94: the small-sample correction for [n] observations and the
    penalised term count [pk]. *)
Definition aicc_correction (n : nat) (pk : Q) : result Q :=
  if Qle_bool (Qnat n - 1) pk
  then py_div (2 * pk ^ 2 + 2 * pk) (- Qnat n + pk + 3)
  else py_div (2 * pk ^ 2 + 2 * pk) (Qnat n - pk - 1).

Definition least_squares_fit (A : list (list Q)) (b : list Q) (p : Q)
  : result (list Q * Q) :=
  x ← lstsq A b;
  row0 ← match A with [] => Raise IndexError | r :: _ => Ok r end;
  let k := length row0 in
  let n := length A in
  let rss := residual_sum_of_squares A x b in
  let pk := p * Qnat k in
  let aic := 2 * pk + Qnat n * np_log (rss / Qnat n) in
  correction ← aicc_correction n pk;
  let aicc := aic + correction in
  Ok (x, aicc).

(** The divisor of the correction in the branch [least_squares_fit] takes. *)
Definition selected_denominator (n : nat) (pk : Q) : Q :=
  if Qle_bool (Qnat n - 1) pk then - Qnat n + pk + 3 else Qnat n - pk - 1.

(** Two numbers of opposite sign. *)
Definition opposite_sign (a b : Q) : Prop :=
  (a < 0 /\ 0 < b) \/ (0 < a /\ b < 0).

End LeastSquares.
End LeastSquares.

(** ** Python containers *)

(** A value that [np.atleast_1d] accepts: a scalar or a flat list. *)
Inductive scalar_or_list (A : Type) : Type :=
  | Scalar (a : A)
  | Many (l : list A).
Arguments Scalar {A} a.
Arguments Many {A} l.

Definition atleast_1d {A} (x : scalar_or_list A) : list A :=
  match x with
  | Scalar a => [a]
  | Many l => l
  end.

(** A Python [dict]: the items in insertion order, keys pairwise different. *)
Module PyDict.
Section PyDict.
Context {K V : Type} `{EqDecision K}.

(** [d[k]] as [d.get(k)]. *)
Fixpoint get (d : list (K * V)) (k : K) : option V :=
  match d with
  | [] => None
  | (k', v') :: d' => if decide (k = k') then Some v' else get d' k
  end.

(** [d.get(k, default)]. *)
Definition get_default (d : list (K * V)) (k : K) (default : V) : V :=
  match get d k with
  | Some v => v
  | None => default
  end.

(** [d[k] = v]: an existing key keeps its place, a new one goes last. *)
Fixpoint set (d : list (K * V)) (k : K) (v : V) : list (K * V) :=
  match d with
  | [] => [(k, v)]
  | (k', v') :: d' =>
      if decide (k = k') then (k', v) :: d' else (k', v') :: set d' k v
  end.

(** [d.pop(k)], which raises when the key is missing. *)
Fixpoint pop (d : list (K * V)) (k : K) : result (list (K * V)) :=
  match d with
  | [] => Raise KeyError
  | (k', v') :: d' =>
      if decide (k = k') then Ok d'
      else d'' ← pop d' k; Ok ((k', v') :: d'')
  end.

(** [{k: v for k, v in items}]. *)
Definition of_items (items : list (K * V)) : list (K * V) :=
  fold_left (fun d kv => set d kv.1 kv.2) items [].

Definition keys (d : list (K * V)) : list K := map fst d.

End PyDict.
End PyDict.

(** ** pycalphad state variables *)

(** [v.T], [v.P], [v.N], [v.GE] and the mole fraction [v.X(species)]. *)
Inductive StateVariable : Set :=
  | T
  | P
  | N
  | GE
  | X (species : string).

#[global] Instance StateVariable_eq_dec : EqDecision StateVariable.
Proof. solve_decision. Defined.

(** The [name] attribute: a mole fraction is named [X_] plus its species. *)
Definition sv_name (key : StateVariable) : string :=
  match key with
  | T => "T"
  | P => "P"
  | N => "N"
  | GE => "GE"
  | X species => "X_" +:+ species
  end.

(** [type(key) == v.MoleFraction]. *)
Definition is_MoleFraction (key : StateVariable) : bool :=
  match key with
  | X _ => true
  | _ => false
  end.

(** The slice [s[n:]]. *)
Definition slice_from (n : nat) (s : string) : string :=
  String.substring n (String.length s - n) s.

(** [s.startswith(prefix)], [s.endswith(suffix)] and [sub in s]. *)
Definition startswith (s prefix : string) : bool := String.prefix prefix s.
Definition endswith (s suffix : string) : bool :=
  bool_decide (String.length suffix <= String.length s)%nat
  && String.eqb (slice_from (String.length s - String.length suffix) s) suffix.
Definition contains (s sub : string) : bool :=
  match String.index 0 sub s with
  | Some _ => true
  | None => false
  end.

(** [sorted] on strings. *)
Definition string_le (s1 s2 : string) : Prop := String.leb s1 s2 = true.
#[global] Instance string_le_dec : RelDecision string_le.
Proof. intros s1 s2; unfold string_le; apply _. Defined.
Definition sorted (l : list string) : list string := merge_sort string_le l.


(** ** EquilibriumSiteFractionGenerator *)

Module EquilibriumSiteFractionGenerator.
Section EquilibriumSiteFractionGenerator.

(** The pycalphad objects the class holds, and the calls it makes to
    pycalphad and to [local_equilibrium]. *)
Context {Database Model PhaseRecord : Type}.
(** [Model(db, comps, phase)]. *)
Variable Model_new : Database -> list string -> string -> Model.
(** [PhaseRecordFactory(db, comps, state_variables, models)]. *)
Variable PhaseRecordFactory :
  Database -> list string -> list StateVariable -> list (string * Model) -> PhaseRecord.
(** [model.constituents]: one set of species per sublattice. *)
Variable model_constituents : Model -> list (gset string).
(** [db.phases[phase].constituents]. *)
Variable phase_constituents : Database -> string -> list (gset string).
(** [local_equilibrium(db, comps, phases, conditions, models, phase_records)]:
    the [dof] vector of every composition set found, or the solver's error. *)
Variable local_equilibrium :
  Database -> list string -> list string -> list (StateVariable * Q) ->
  list (string * Model) -> PhaseRecord -> result (list (list Q)).

(** [[c for cons in constituents for c in sorted(list(cons))]]. *)
Definition flat_sorted (constituents : list (gset string)) : list string :=
  flat_map (fun cons => sorted (elements cons)) constituents.

Record Generator : Type := {
  db : Database;
  phase : string;
  models : gmap (gset string) (list (string * Model));
  phase_records : gmap (gset string) PhaseRecord;
  constituents : gmap (gset string) (list string);
  full_constituents : list string;
  _conditions_override : list (StateVariable * Q)
}.

(** [__init__]. *)
Definition init (database : Database) (phase : string) : Generator :=
  {| db := database;
     phase := phase;
     models := ∅;
     phase_records := ∅;
     constituents := ∅;
     full_constituents := flat_sorted (phase_constituents database phase);
     _conditions_override := [(N, 1); (GE, 0)] |}.

Definition set_override_condition (self : Generator) (variable : StateVariable)
  (value : Q) : Generator :=
  {| db := db self; phase := phase self; models := models self;
     phase_records := phase_records self; constituents := constituents self;
     full_constituents := full_constituents self;
     _conditions_override := PyDict.set (_conditions_override self) variable value |}.

Definition remove_override_condition (self : Generator) (variable : StateVariable)
  : result Generator :=
  override ← PyDict.pop (_conditions_override self) variable;
  Ok {| db := db self; phase := phase self; models := models self;
        phase_records := phase_records self; constituents := constituents self;
        full_constituents := full_constituents self;
        _conditions_override := override |}.

Definition _generate_comps_key (components : list string)
  : gset string * list string :=
  let comps := sorted components in
  (list_to_set comps, comps).

(** A construction the generator asks pycalphad for. *)
Inductive construction : Type :=
  | BuildModel (comps : list string)
  | BuildPhaseRecords (comps : list string).

(** [_generate_phase_records]: the generator afterwards, and the
    constructions performed by the call. *)
Definition _generate_phase_records (self : Generator) (components : list string)
  : Generator * list construction :=
  let '(active_comps, comps) := _generate_comps_key components in
  match models self !! active_comps with
  | None =>
      let model := Model_new (db self) comps (phase self) in
      let models_entry := [(phase self, model)] in
      let record :=
        PhaseRecordFactory (db self) comps [T; P; N; GE] models_entry in
      ({| db := db self; phase := phase self;
          models := <[active_comps := models_entry]> (models self);
          phase_records := <[active_comps := record]> (phase_records self);
          constituents :=
            <[active_comps := flat_sorted (model_constituents model)]>
              (constituents self);
          full_constituents := full_constituents self;
          _conditions_override := _conditions_override self |},
       [BuildModel comps; BuildPhaseRecords comps])
  | Some _ => (self, [])
  end.

(** The cached bundle for a key: models, phase records, constituents. *)
Definition cached (self : Generator) (active_comps : gset string)
  : option (list (string * Model) * PhaseRecord * list string) :=
  ms ← models self !! active_comps;
  pr ← phase_records self !! active_comps;
  cs ← constituents self !! active_comps;
  Some (ms, pr, cs).

(** Lines 48-49: the overrides written into the caller's [conditions]. *)
Definition apply_overrides (override conditions : list (StateVariable * Q))
  : list (StateVariable * Q) :=
  fold_left
    (fun conditions oc =>
       match PyDict.get override oc with
       | Some value => PyDict.set conditions oc value
       | None => conditions
       end)
    (PyDict.keys override) conditions.

(** Lines 55-59, on the cached bundle and the merged conditions. *)
Definition solve_site_fractions (self : Generator) (comps : list string)
  (active_comps : gset string) (conditions : list (StateVariable * Q))
  : result (list (string * Q)) :=
  match cached self active_comps with
  | None => Raise KeyError
  | Some (ms, pr, cs) =>
      comp_sets ← local_equilibrium (db self) comps [phase self] conditions ms pr;
      dof ← match comp_sets with [] => Raise IndexError | c :: _ => Ok c end;
      let sfg := PyDict.of_items (zip cs (drop 4 dof)) in
      Ok (fold_left (fun sfg c => PyDict.set sfg c (PyDict.get_default sfg c 0))
            (full_constituents self) sfg)
  end.

(** The caller's view of one call. *)
Record outcome : Type := {
  generator_after : Generator;
  conditions_after : list (StateVariable * Q);
  constructions : list construction;
  returned : result (list (string * Q))
}.

(** [__call__]: [conditions] is the caller's dict, updated in place. *)
Definition call (self : Generator) (components : list string)
  (conditions : list (StateVariable * Q)) : outcome :=
  let '(active_comps, comps) := _generate_comps_key components in
  let '(self, built) := _generate_phase_records self components in
  let conditions := apply_overrides (_conditions_override self) conditions in
  {| generator_after := self;
     conditions_after := conditions;
     constructions := built;
     returned := solve_site_fractions self comps active_comps conditions |}.

(** The canonical form of a component collection: sorted, without
    duplicates. *)
Definition canonical (components : list string) : list string :=
  sorted (remove_dups components).

End EquilibriumSiteFractionGenerator.
End EquilibriumSiteFractionGenerator.

(** ** SiteFractionGenerator *)

Module SiteFractionGenerator.
Section SiteFractionGenerator.

(** What [create_site_fractions] returns, and the method itself, which
    subclasses supply. *)
Context {SiteFractions : Type}.
Variable create_site_fractions : gmap string Q -> SiteFractions.

(** Lines 70-72: one mole-fraction condition applied to [composition]. *)
Definition apply_mole_fraction (composition : gmap string Q)
  (key : StateVariable) (val : Q) : gmap string Q :=
  <[slice_from 2 (sv_name key) := val]> ((fun x => x - val) <$> composition).

(** Lines 66-72: the dict handed to [create_site_fractions]. *)
Definition composition_of (components : list string)
  (conditions : list (StateVariable * Q)) : gmap string Q :=
  let comps_no_va : gset string := list_to_set components ∖ list_to_set ["VA"%string] in
  let composition : gmap string Q := gset_to_gmap 1 comps_no_va in
  fold_left
    (fun composition '(key, val) =>
       if is_MoleFraction key
       then apply_mole_fraction composition key val
       else composition)
    conditions composition.

(** [__call__]. *)
Definition call (components : list string)
  (conditions : list (StateVariable * Q)) : SiteFractions :=
  create_site_fractions (composition_of components conditions).

End SiteFractionGenerator.
End SiteFractionGenerator.


(** ** fit *)

Module Fit.

(** *** Symbolic expressions *)

(** The symengine expressions [fit] builds.  [EPiecewise e lo hi] is
    [Piecewise((e, And(lo <= v.T, v.T < hi)), (0, True))]. *)
Inductive Expr : Type :=
  | EConst (c : Q)
  | ESymbol (name : string)
  | ETemperature
  | EAdd (a b : Expr)
  | EMul (a b : Expr)
  | EPiecewise (e : Expr) (lo hi : Q).

(** The value of an expression at temperature [temp], the symbols read
    from [env]. *)
Fixpoint eval (env : string -> Q) (temp : Q) (e : Expr) : Q :=
  match e with
  | EConst c => c
  | ESymbol name => env name
  | ETemperature => temp
  | EAdd a b => eval env temp a + eval env temp b
  | EMul a b => eval env temp a * eval env temp b
  | EPiecewise e lo hi =>
      if Qle_bool lo temp && negb (Qle_bool hi temp) then eval env temp e else 0
  end.

(** The symbols of a symbol table as an environment at [temp]. *)
Definition symbol_env (symbols : list (string * Expr)) (temp : Q) (name : string) : Q :=
  match PyDict.get symbols name with
  | Some e => eval (fun _ => 0) temp e
  | None => 0
  end.

(** *** Mobility terms *)

(** Modelled from the spec: [MobilityTerm] of [kawin.mobility_fitting.utils],
    which is not among the sources.  A term is identified by its constituent
    array and polynomial order, and carries an accumulating expression that
    starts at zero. *)
Record MobilityTerm : Type := {
  constituent_array : list (list string);
  order : nat;
  expr : Expr
}.

Definition MobilityTerm_new (constituent_array : list (list string)) (order : nat)
  : MobilityTerm :=
  {| constituent_array := constituent_array; order := order; expr := EConst 0 |}.

Definition term_key (t : MobilityTerm) : list (list string) * nat :=
  (constituent_array t, order t).

(** Modelled from the spec: [MobilityTerm.__eq__], structural on the
    constituent array and the order. *)
Definition MobilityTerm_eq (a b : MobilityTerm) : bool :=
  bool_decide (term_key a = term_key b).

Definition set_expr (t : MobilityTerm) (e : Expr) : MobilityTerm :=
  {| constituent_array := constituent_array t; order := order t; expr := e |}.

(** [term in model] and [model.index(term)]. *)
Definition term_in (term : MobilityTerm) (model : list MobilityTerm) : bool :=
  existsb (fun item => MobilityTerm_eq item term) model.

Fixpoint term_index (term : MobilityTerm) (model : list MobilityTerm) : result nat :=
  match model with
  | [] => Raise ValueError
  | item :: model' =>
      if MobilityTerm_eq item term then Ok O
      else i ← term_index term model'; Ok (S i)
  end.

(** *** Dataset records *)

Record Solver : Type := {
  sublattice_configurations : list (list (scalar_or_list string));
  sublattice_occupancies : list (list (scalar_or_list Q))
}.

(** An ESPEI dataset: [values] has the three axes pressure, temperature,
    configuration. *)
Record Dataset : Type := {
  d_components : list string;
  d_phases : list string;
  d_output : string;
  d_conditions : list (string * scalar_or_list Q);
  d_values : list (list (list Q));
  d_solver : option Solver
}.

(** The keys of a row of site fractions: [v.SiteFraction(phase, index, species)]
    on the solver path, whatever species key the generator uses otherwise. *)
Inductive sf_key : Type :=
  | SiteFraction (phase : string) (sub_index : nat) (species : string)
  | Species (name : string).

#[global] Instance sf_key_eq_dec : EqDecision sf_key.
Proof. solve_decision. Defined.

(** [np.array(values).flatten()]. *)
Definition flatten (values : list (list (list Q))) : list Q :=
  concat (concat values).

(** [np.meshgrid] with matrix ([ij]) indexing, every grid flattened. *)
Fixpoint meshgrid_ij (xs : list (list Q)) : list (list Q) :=
  match xs with
  | [] => []
  | x :: rest =>
      let inner_size := fold_right (fun y acc => (length y * acc)%nat) 1%nat rest in
      flat_map (fun a => replicate inner_size a) x
      :: map (fun g => concat (replicate (length x) g)) (meshgrid_ij rest)
  end.

(** [np.meshgrid] as [fit] calls it, with the default Cartesian ([xy])
    indexing that exchanges the first two axes; every grid flattened. *)
Definition meshgrid (xs : list (list Q)) : list (list Q) :=
  match xs with
  | x1 :: x2 :: rest =>
      match meshgrid_ij (x2 :: x1 :: rest) with
      | g2 :: g1 :: gs => g1 :: g2 :: gs
      | gs => gs
      end
  | _ => meshgrid_ij xs
  end.

(** Lines 168-177: the site fractions of one sublattice configuration. *)
Definition configuration_site_fractions (phase : string)
  (sub_conf : list (scalar_or_list string)) (sub_lat : list (scalar_or_list Q))
  : list (sf_key * Q) :=
  (fold_left
     (fun '(sub_index, sf) '(species, occs) =>
        (S sub_index,
         fold_left
           (fun sf '(s, o) => PyDict.set sf (SiteFraction phase sub_index s) o)
           (zip (atleast_1d species) (atleast_1d occs)) sf))
     (zip sub_conf sub_lat) (O, [])).2.

Definition solver_site_fractions (phase : string) (solver : Solver)
  : list (list (sf_key * Q)) :=
  map (fun '(sub_conf, sub_lat) => configuration_site_fractions phase sub_conf sub_lat)
    (zip (sublattice_configurations solver) (sublattice_occupancies solver)).

(** [np.argmin]: the first index of the least entry. *)
Fixpoint argmin_from (best_index : nat) (best : Q) (i : nat) (l : list Q) : nat :=
  match l with
  | [] => best_index
  | x :: l' =>
      if Qle_bool best x then argmin_from best_index best (S i) l'
      else argmin_from i x (S i) l'
  end.

Definition np_argmin (l : list Q) : result nat :=
  match l with
  | [] => Raise ValueError
  | x :: l' => Ok (argmin_from O x 1%nat l')
  end.

(** [l[i]] on a list. *)
Definition list_get {A} (l : list A) (i : nat) : result A :=
  match l !! i with
  | Some a => Ok a
  | None => Raise IndexError
  end.

(** The dataset queries of lines 125-134. *)
Definition query (marker : string) (components : gset string) (phase : string)
  (diffusing_species : string) (d : Dataset) : bool :=
  bool_decide (list_to_set (d_components d) ⊆ components)
  && (Nat.eqb (length (d_phases d)) 1
      && match d_phases d with x0 :: _ => String.eqb x0 phase | [] => false end)
  && (contains (d_output d) marker && endswith (d_output d) diffusing_species).

Section Fit.

(** numpy, as in [least_squares_fit]. *)
Variable lstsq : list (list Q) -> list Q -> result (list Q).
Variable np_log : Q -> Q.
(** [getattr(v, c)] on [pycalphad.variables]. *)
Variable getattr_v : string -> result StateVariable.
(** The caller's [site_fraction_generator], a callable object with a state
    of its own. *)
Context {Generator : Type}.
Variable site_fraction_generator :
  Generator -> list string -> list (StateVariable * Q) ->
  result (list (sf_key * Q) * Generator).
(** [MobilityTerm.generate_multiplier], [_vname] and [find_last_variable] of
    [kawin.mobility_fitting.utils]. *)
Variable generate_multiplier : MobilityTerm -> list (sf_key * Q) -> result Q.
Variable _vname : nat -> string.
Context {Database : Type}.
Variable find_last_variable : Database -> nat.

(** Line 160. *)
Definition condition_key (c : string) : result StateVariable :=
  if startswith c "X_" then Ok (X (slice_from 2 c)) else getattr_v c.

(** Lines 156-160: [conds_grid] (before [meshgrid]) and [conds_key]. *)
Fixpoint condition_axes (conditions : list (string * scalar_or_list Q))
  : result (list (list Q) * list StateVariable) :=
  match conditions with
  | [] => Ok ([], [])
  | (c, val) :: rest =>
      key ← condition_key c;
      '(conds_grid, conds_key) ← condition_axes rest;
      Ok (atleast_1d val :: conds_grid, key :: conds_key)
  end.

(** Lines 156-164: [conds_list]. *)
Definition conditions_list (d : Dataset) : result (list (StateVariable * list Q)) :=
  '(conds_grid, conds_key) ← condition_axes (d_conditions d);
  Ok (PyDict.of_items (zip conds_key (meshgrid conds_grid))).

(** [{key: val[i] for key, val in conds_list.items()}]. *)
Definition conditions_at (conds_list : list (StateVariable * list Q)) (i : nat)
  : result (list (StateVariable * Q)) :=
  mapM (fun '(key, val) => x ← list_get val i; Ok (key, x)) conds_list.

(** Lines 181-183, over the indices [range(len(y_sub))]. *)
Fixpoint generated_site_fractions (g : Generator) (components : list string)
  (conds_list : list (StateVariable * list Q)) (indices : list nat)
  : result (list (list (sf_key * Q)) * Generator) :=
  match indices with
  | [] => Ok ([], g)
  | i :: rest =>
      conditions ← conditions_at conds_list i;
      '(sf, g) ← site_fraction_generator g components conditions;
      '(sfs, g) ← generated_site_fractions g components conds_list rest;
      Ok (sf :: sfs, g)
  end.

(** Lines 156-185: the body of the loop over the records. *)
Definition collect_record (transform : Q -> Q) (phase : string)
  (acc : list (list (sf_key * Q)) * list Q * Generator) (d : Dataset)
  : result (list (list (sf_key * Q)) * list Q * Generator) :=
  let '(site_fractions, Y, g) := acc in
  conds_list ← conditions_list d;
  let y_sub := map transform (flatten (d_values d)) in
  '(rows, g) ←
    match d_solver d with
    | Some solver => Ok (solver_site_fractions phase solver, g)
    | None =>
        generated_site_fractions g (d_components d) conds_list
          (seq 0 (length y_sub))
    end;
  Ok (site_fractions ++ rows, Y ++ y_sub, g).

(** Lines 152-185: the record-collection loop. *)
Fixpoint collect_from (transform : Q -> Q) (phase : string)
  (acc : list (list (sf_key * Q)) * list Q * Generator) (data : list Dataset)
  : result (list (list (sf_key * Q)) * list Q * Generator) :=
  match data with
  | [] => Ok acc
  | d :: data' =>
      acc ← collect_record transform phase acc d;
      collect_from transform phase acc data'
  end.

Definition collect (transform : Q -> Q) (phase : string) (g : Generator)
  (data : list Dataset) : result (list (list (sf_key * Q)) * list Q * Generator) :=
  collect_from transform phase ([], [], g) data.

(** Line 191. *)
Definition design_matrix (mob_model : list MobilityTerm)
  (site_fractions : list (list (sf_key * Q))) : result (list (list Q)) :=
  mapM (fun sf => mapM (fun mi => generate_multiplier mi sf) mob_model)
    site_fractions.

(** Lines 188-200: every candidate fitted and scored, the best one kept. *)
Definition select_best (test_models : list (list MobilityTerm))
  (site_fractions : list (list (sf_key * Q))) (Y : list Q) (p : Q)
  : result (list MobilityTerm * list Q) :=
  fits ← mapM (fun mob_model =>
                 X ← design_matrix mob_model site_fractions;
                 LeastSquares.least_squares_fit lstsq np_log X Y p)
              test_models;
  let fitted_models := fits.*1 in
  let aiccs := fits.*2 in
  index ← np_argmin aiccs;
  best_model ← list_get test_models index;
  best_fit ← list_get fitted_models index;
  Ok (best_model, best_fit).

(** The accumulator of [fit]: [fitted_mobility_model], [symbols], [vIndex]. *)
Definition accumulator : Type :=
  (list MobilityTerm * list (string * Expr) * nat)%type.

(** Lines 209-217: the body of the loop over the best model's terms. *)
Definition accumulate_step (multiplier : Expr) (acc : accumulator)
  (tc : MobilityTerm * Q) : result accumulator :=
  let '(fitted_mobility_model, symbols, vIndex) := acc in
  let '(term, coef) := tc in
  let fitted_mobility_model :=
    if negb (term_in term fitted_mobility_model)
    then fitted_mobility_model
           ++ [MobilityTerm_new (constituent_array term) (order term)]
    else fitted_mobility_model in
  i ← term_index term fitted_mobility_model;
  let var_name := _vname vIndex in
  let symbols := PyDict.set symbols var_name (EPiecewise (EConst coef) 1 10000) in
  let fitted_mobility_model :=
    alter (fun combined_term =>
             set_expr combined_term
               (EAdd (expr combined_term) (EMul (ESymbol var_name) multiplier)))
          i fitted_mobility_model in
  Ok (fitted_mobility_model, symbols, (vIndex + 1)%nat).

(** Lines 208-217. *)
Fixpoint accumulate (multiplier : Expr) (acc : accumulator)
  (pairs : list (MobilityTerm * Q)) : result accumulator :=
  match pairs with
  | [] => Ok acc
  | tc :: pairs' =>
      acc ← accumulate_step multiplier acc tc;
      accumulate multiplier acc pairs'
  end.

(** The accumulation loops of the passes of a run, one after the other, each
    with its multiplier and its selected (term, coefficient) pairs. *)
Fixpoint accumulate_passes (acc : accumulator)
  (sels : list (Expr * list (MobilityTerm * Q))) : result accumulator :=
  match sels with
  | [] => Ok acc
  | (multiplier, pairs) :: rest =>
      acc ← accumulate multiplier acc pairs;
      accumulate_passes acc rest
  end.

(** One entry of [data_types]: the output marker of the query, the
    transform, the multiplier and the test models. *)
Definition data_type : Type :=
  (string * (Q -> Q) * Expr * list (list MobilityTerm))%type.

Definition q_transform (x : Q) : Q := - x.
Definition d0_transform (x : Q) : Q := (8314 # 1000) * np_log x.

(** Lines 149-217: the body of the loop over [data_types]. *)
Definition fit_pass (datasets : list Dataset) (components : gset string)
  (phase diffusing_species : string) (p : Q)
  (st : accumulator * Generator) (data_val : data_type)
  : result (accumulator * Generator) :=
  let '(acc, g) := st in
  let '(marker, transform, multiplier, test_models) := data_val in
  let data := filter (fun d => query marker components phase diffusing_species d) datasets in
  '(site_fractions, Y, g) ← collect transform phase g data;
  '(best_model, best_fit) ← select_best test_models site_fractions Y p;
  acc ← accumulate multiplier acc (zip best_model best_fit);
  Ok (acc, g).

Fixpoint fit_passes (datasets : list Dataset) (components : gset string)
  (phase diffusing_species : string) (p : Q)
  (st : accumulator * Generator) (data_types : list data_type)
  : result (accumulator * Generator) :=
  match data_types with
  | [] => Ok st
  | data_val :: rest =>
      st ← fit_pass datasets components phase diffusing_species p st data_val;
      fit_passes datasets components phase diffusing_species p st rest
  end.

(** Lines 220-221. *)
Definition close_over_temperature (f : MobilityTerm) : MobilityTerm :=
  set_expr f (EPiecewise (expr f) 1 6000).

(** [fit], on datasets already loaded (a directory name is first handed to
    ESPEI's loader, lines 115-116).  The generator's state is returned with
    the fitted model and the symbols. *)
Definition fit (datasets : list Dataset) (database : Database)
  (components : list string) (phase diffusing_species : string)
  (Q_test_models D0_test_models : list (list MobilityTerm))
  (g : Generator) (p : Q)
  : result (list MobilityTerm * list (string * Expr) * Generator) :=
  let components : gset string := list_to_set components ∪ list_to_set ["VA"%string] in
  let fitted_mobility_model : list MobilityTerm := [] in
  let symbols : list (string * Expr) := [] in
  let vIndex := find_last_variable database in
  let data_types : list data_type :=
    [("TRACER_Q"%string, q_transform, EConst 1, Q_test_models);
     ("TRACER_D0"%string, d0_transform, ETemperature, D0_test_models)] in
  '(fitted_mobility_model, symbols, _, g) ←
    fit_passes datasets components phase diffusing_species p
      (fitted_mobility_model, symbols, vIndex, g) data_types;
  Ok (map close_over_temperature fitted_mobility_model, symbols, g).

End Fit.
End Fit.

(** ** The accumulation of a run, as the specification words it *)

Module Merge.
Import Fit.

(** One selected coefficient: the key of its term, the symbol minted for it,
    its fitted value and the multiplier of its pass. *)
Record contribution : Type := {
  c_key : list (list string) * nat;
  c_name : string;
  c_coef : Q;
  c_multiplier : Expr
}.

(** The selected (term, coefficient) pairs of the passes of a run, each with
    the multiplier of its pass, in the order they are accumulated. *)
Definition flat_selection (sels : list (Expr * list (MobilityTerm * Q)))
  : list (MobilityTerm * Q * Expr) :=
  flat_map (fun '(multiplier, pairs) => map (fun tc => (tc.1, tc.2, multiplier)) pairs)
    sels.

(** The contributions numbered from the index [v], the symbol of each named
    by [vname]. *)
Fixpoint number_from (vname : nat -> string) (v : nat)
  (l : list (MobilityTerm * Q * Expr)) : list contribution :=
  match l with
  | [] => []
  | (term, coef, multiplier) :: rest =>
      {| c_key := term_key term; c_name := vname v; c_coef := coef;
         c_multiplier := multiplier |}
      :: number_from vname (S v) rest
  end.

(** The keys of a list in the order of their first occurrence. *)
Definition first_occurrences {A} `{EqDecision A} (l : list A) : list A :=
  fold_left (fun seen k => if decide (k ∈ seen) then seen else seen ++ [k]) l [].

(** [symbol * multiplier] for one contribution. *)
Definition summand (c : contribution) : Expr :=
  EMul (ESymbol (c_name c)) (c_multiplier c).

(** The sum, from zero, of the contributions whose term has the key [key]. *)
Definition merged_expr (key : list (list string) * nat) (cs : list contribution)
  : Expr :=
  fold_left (fun e c => EAdd e (summand c))
    (filter (fun c => c_key c = key) cs) (EConst 0).

Definition merged_term (cs : list contribution) (key : list (list string) * nat)
  : MobilityTerm :=
  {| constituent_array := key.1; order := key.2; expr := merged_expr key cs |}.

(** One entry per distinct key, holding the sum of that key's contributions. *)
Definition merged_model (cs : list contribution) : list MobilityTerm :=
  map (merged_term cs) (first_occurrences (map c_key cs)).

(** The symbol table: every minted symbol with its guarded coefficient. *)
Definition symbol_table (cs : list contribution) : list (string * Expr) :=
  map (fun c => (c_name c, EPiecewise (EConst (c_coef c)) 1 10000)) cs.

End Merge.

(** The symbol table after the symbols of [cs] are written into it, in
    order (line 215). *)
Definition register (symbols : list (string * Fit.Expr)) (cs : list Merge.contribution)
  : list (string * Fit.Expr) :=
  fold_left
    (fun symbols c =>
       PyDict.set symbols (Merge.c_name c)
         (Fit.EPiecewise (Fit.EConst (Merge.c_coef c)) 1 10000))
    cs symbols.

(** The feature rows the collection loop appends for a record: one per
    (configuration, occupancies) pair of a solver block, else one per
    flattened value. *)
Definition feature_rows (d : Fit.Dataset) : nat :=
  match Fit.d_solver d with
  | Some solver =>
      length (zip (Fit.sublattice_configurations solver)
                  (Fit.sublattice_occupancies solver))
  | None => length (Fit.flatten (Fit.d_values d))
  end.

Definition target_values (d : Fit.Dataset) : nat :=
  length (Fit.flatten (Fit.d_values d)).

(** ** A small run *)

Module Example.
Import Fit.

(** The state variables a dataset names besides mole fractions. *)
Definition getattr_v (c : string) : result StateVariable :=
  if String.eqb c "T" then Ok T
  else if String.eqb c "P" then Ok P
  else if String.eqb c "N" then Ok N
  else if String.eqb c "GE" then Ok GE
  else Raise AttributeError.

(** Least squares for a design matrix of one column of ones: the mean. *)
Definition lstsq (A : list (list Q)) (b : list Q) : result (list Q) :=
  if negb (Nat.eqb (length A) 0) && Nat.eqb (length A) (length b)
     && forallb (fun r => match r with [x] => Qeq_bool x 1 | _ => false end) A
  then Ok [np_sum b / Qnat (length b)]
  else Raise LinAlgError.

(** A stand-in for the logarithm: its tangent at 1. *)
Definition np_log (x : Q) : Q := x - 1.

(** A generator without state that puts every component at 1. *)
Definition site_fraction_generator (g : unit) (components : list string)
  (conditions : list (StateVariable * Q)) : result (list (sf_key * Q) * unit) :=
  Ok (map (fun c => (Species c, 1)) components, g).

Definition generate_multiplier (term : MobilityTerm) (sf : list (sf_key * Q))
  : result Q :=
  Ok 1.

(** Symbol names: [VV] and the index in decimal. *)
Definition vname (i : nat) : string := "VV" +:+ pretty i.

(** A database taken as the list of its symbol names, which are
    [vname 0], [vname 1], ... *)
Definition find_last_variable (database : list string) : nat := length database.

Definition database : list string := [vname 0; vname 1].

Definition term_A : MobilityTerm := MobilityTerm_new [["A"%string]] 0.

Definition record_Q : Dataset :=
  {| d_components := ["A"%string];
     d_phases := ["BCC"%string];
     d_output := "TRACER_Q_A";
     d_conditions := [("T"%string, Scalar 1000); ("P"%string, Scalar 101325)];
     d_values := [[[250000]]];
     d_solver := None |}.

Definition record_D0 : Dataset :=
  {| d_components := ["A"%string];
     d_phases := ["BCC"%string];
     d_output := "TRACER_D0_A";
     d_conditions := [("T"%string, Scalar 1000); ("P"%string, Scalar 101325)];
     d_values := [[[2]]];
     d_solver :=
       Some {| sublattice_configurations := [[Scalar "A"%string]];
               sublattice_occupancies := [[Scalar 1]] |} |}.

(** A record whose solver block has two configurations for one value. *)
Definition record_mismatched : Dataset :=
  {| d_components := ["A"%string; "B"%string];
     d_phases := ["BCC"%string];
     d_output := "TRACER_Q_A";
     d_conditions := [("T"%string, Scalar 1000); ("P"%string, Scalar 101325)];
     d_values := [[[250000]]];
     d_solver :=
       Some {| sublattice_configurations :=
                 [[Scalar "A"%string]; [Scalar "B"%string]];
               sublattice_occupancies := [[Scalar 1]; [Scalar 1]] |} |}.

Definition run
  : result (list MobilityTerm * list (string * Expr) * unit) :=
  fit lstsq np_log getattr_v site_fraction_generator generate_multiplier vname
    find_last_variable [record_Q; record_D0] database ["A"%string]
    "BCC" "A" [[term_A]] [[term_A]] tt 1.

End Example.

(** ** Quantities the further properties speak of *)

(** The number of points of a condition grid: the product of the lengths of
    the condition arrays, for a list of arrays and for a record. *)
Definition grid_points (xs : list (list Q)) : nat :=
  fold_right (fun y acc => (length y * acc)%nat) 1%nat xs.

Definition grid_size (d : Fit.Dataset) : nat :=
  fold_right (fun cv acc => (length (atleast_1d cv.2) * acc)%nat) 1%nat
    (Fit.d_conditions d).

(** The species the mole-fraction conditions of a mapping name, in order. *)
Definition named_species (conditions : list (StateVariable * Q)) : list string :=
  omap (fun kv => match kv.1 with X species => Some species | _ => None end)
    conditions.

(** The sum of a list of numbers, and the coefficients a pass selected for
    the terms of a key. *)
Definition Qsum (l : list Q) : Q := fold_right Qplus 0 l.

Definition key_coefficients (key : list (list string) * nat)
  (pairs : list (Fit.MobilityTerm * Q)) : list Q :=
  map snd (filter (fun tc => Fit.term_key tc.1 = key) pairs).

(** ** A small equilibrium generator *)

Module EquilibriumExample.
Import EquilibriumSiteFractionGenerator.

(** A model and a phase record are stood for by the components they were
    built for; the phase has one sublattice with A, B and the vacancy. *)
Definition Model_new (database : unit) (comps : list string) (phase : string)
  : list string := comps.
Definition PhaseRecordFactory (database : unit) (comps : list string)
  (state_variables : list StateVariable) (models : list (string * list string))
  : list string := comps.
Definition model_constituents (model : list string) : list (gset string) :=
  [list_to_set model].
Definition phase_constituents (database : unit) (phase : string)
  : list (gset string) :=
  [list_to_set ["A"; "B"; "VA"]%string].

(** A solver that always finds one composition set: the four state
    variables, then the site fractions 0.7 and 0.3. *)
Definition local_equilibrium (database : unit) (comps phases : list string)
  (conditions : list (StateVariable * Q)) (models : list (string * list string))
  (phase_records : list string) : result (list (list Q)) :=
  Ok [[0; 1; 101325; 1000; 7 # 10; 3 # 10]].

Definition generator : @Generator unit (list string) (list string) :=
  init phase_constituents tt "BCC".

Definition call_example : outcome :=
  call Model_new PhaseRecordFactory model_constituents local_equilibrium generator
    ["B"; "A"]%string [(T, 1000); (X "B", 3 # 10)].

End EquilibriumExample.

(** A record of another phase, and a record without solver block that has
    two values for a grid of one point. *)
Definition record_other_phase : Fit.Dataset :=
  {| Fit.d_components := ["A"%string];
     Fit.d_phases := ["FCC"%string];
     Fit.d_output := "TRACER_Q_A";
     Fit.d_conditions := [("T"%string, Scalar 1000); ("P"%string, Scalar 101325)];
     Fit.d_values := [[[100000]]];
     Fit.d_solver := None |}.

Definition record_two_values : Fit.Dataset :=
  {| Fit.d_components := ["A"%string];
     Fit.d_phases := ["BCC"%string];
     Fit.d_output := "TRACER_Q_A";
     Fit.d_conditions := [("T"%string, Scalar 1000); ("P"%string, Scalar 101325)];
     Fit.d_values := [[[250000; 260000]]];
     Fit.d_solver := None |}.

(** ** least_squares_fit on binary64 numbers *)

(** Lines 85-96 as Python computes them for a penalty [p] that is a
    [float]: every operation is the IEEE 754 binary64 one, rounded to
    nearest, and [/] raises on a divisor that compares equal to zero.
    numpy's [lstsq], [matmul], [sum] and [log] are external and enter as
    section variables. *)
Module Binary64.
Import PrimFloat.
Local Open Scope float_scope.

(** [float(n)] for a Python [int] that counts rows or columns; exact for
    every count below 2^53. *)
Fixpoint of_int (n : nat) : float :=
  match n with
  | O => 0
  | S m => of_int m + 1
  end.

(** Python's [a / b] on floats. *)
Definition py_div (a b : float) : result float :=
  if b =? 0 then Raise ZeroDivisionError else Ok (a / b).

(** Lines 91-94; [pk**2] is the product [pk * pk]. *)
Definition aicc_correction (n : nat) (pk : float) : result float :=
  if of_int n - 1 <=? pk
  then py_div (2 * (pk * pk) + 2 * pk) (- of_int n + pk + 3)
  else py_div (2 * (pk * pk) + 2 * pk) (of_int n - pk - 1).

Section Binary64.

Variable lstsq : list (list float) -> list float -> result (list float).
Variable matmul : list (list float) -> list float -> list float.
Variable np_sum : list float -> float.
Variable np_log : float -> float.

Definition residual_sum_of_squares (A : list (list float)) (x b : list float)
  : float :=
  let b_pred := matmul A x in
  np_sum (map (fun d => d * d) (zip_with sub b_pred b)).

Definition least_squares_fit (A : list (list float)) (b : list float) (p : float)
  : result (list float * float) :=
  x ← lstsq A b;
  row0 ← match A with [] => Raise IndexError | r :: _ => Ok r end;
  let k := length row0 in
  let n := length A in
  let rss := residual_sum_of_squares A x b in
  let pk := p * of_int k in
  let aic := 2 * pk + of_int n * np_log (rss / of_int n) in
  correction ← aicc_correction n pk;
  let aicc := aic + correction in
  Ok (x, aicc).

End Binary64.

(** The double next below 1, which Python writes [0.9999999999999999]. *)
Definition penalty : float := 0x1.fffffffffffffp-1.

(** The doubles Python writes [0.3], [0.2], [0.09999999999999998] and
    [0.49999999999999994]. *)
Definition three_tenths : float := 0x1.3333333333333p-2.
Definition two_tenths : float := 0x1.999999999999ap-3.
Definition below_one_tenth : float := 0x1.9999999999998p-4.
Definition below_one_half : float := 0x1.fffffffffffffp-2.

End Binary64.

(** ** SiteFractionGenerator over any numbers *)

(** Lines 66-72 for numbers of any kind, [one] the number 1 and [sub] their
    subtraction: the exact rationals of [SiteFractionGenerator] above, or
    Python's floats. *)
Module Composition.
Section Composition.

Context {num : Type}.
Variable one : num.
Variable sub : num -> num -> num.

(** Lines 70-72. *)
Definition apply_mole_fraction (composition : gmap string num)
  (key : StateVariable) (val : num) : gmap string num :=
  <[slice_from 2 (sv_name key) := val]> ((fun x => sub x val) <$> composition).

(** Lines 66-72. *)
Definition composition_of (components : list string)
  (conditions : list (StateVariable * num)) : gmap string num :=
  let comps_no_va : gset string := list_to_set components ∖ list_to_set ["VA"%string] in
  let composition : gmap string num := gset_to_gmap one comps_no_va in
  fold_left
    (fun composition '(key, val) =>
       if is_MoleFraction key
       then apply_mole_fraction composition key val
       else composition)
    conditions composition.

(** The species that the mole-fraction conditions of a mapping name, and
    the values of those conditions, both in the order of the mapping. *)
Definition named (conditions : list (StateVariable * num)) : list string :=
  omap (fun kv => match kv.1 with X species => Some species | _ => None end)
    conditions.

Definition mole_fractions (conditions : list (StateVariable * num)) : list num :=
  omap (fun kv => if is_MoleFraction kv.1 then Some kv.2 else None) conditions.

End Composition.
End Composition.

(** ** The database of a run *)

Module Utils.

(** Modelled from the spec: [find_last_variable] of
    [kawin.mobility_fitting.utils] is not among the sources.  The spec has
    the database give "the next unused symbol-index in the document (to
    avoid collisions)", the symbols of a run being "allocated from the last
    variable index already present in the target database".  A database is
    taken as the finite set of the indices of the coefficient symbols it
    holds; the index it gives is the one after the last of them, 0 when it
    holds none. *)
Definition find_last_variable (database : gset nat) : nat :=
  set_fold (fun i next => Nat.max (S i) next) O database.

(** Modelled from the spec: the names of the coefficient symbols a database
    holds, [vname] being [_vname]. *)
Definition coefficient_names (vname : nat -> string) (database : gset nat)
  : gset string :=
  set_map vname database.

End Utils.

(** ** The selections of a run *)

Section Selections.

Import Fit.

Variable lstsq : list (list Q) -> list Q -> result (list Q).
Variable np_log : Q -> Q.
Variable getattr_v : string -> result StateVariable.
Context {Generator : Type}.
Variable site_fraction_generator :
  Generator -> list string -> list (StateVariable * Q) ->
  result (list (sf_key * Q) * Generator).
Variable generate_multiplier : MobilityTerm -> list (sf_key * Q) -> result Q.

(** Lines 149-200 for the two entries of [data_types], the accumulation
    left out: the records of the [Q] pass collected and its best model and
    fit selected, then those of the [D0] pass. *)
Definition best_of_passes (datasets : list Dataset) (components : list string)
  (phase diffusing_species : string)
  (Q_test_models D0_test_models : list (list MobilityTerm))
  (g : Generator) (p : Q)
  : result (list MobilityTerm * list Q * list MobilityTerm * list Q * Generator) :=
  let components : gset string := list_to_set components ∪ list_to_set ["VA"%string] in
  '(site_fractions, Y, g) ←
    collect getattr_v site_fraction_generator q_transform phase g
      (filter (fun d => query "TRACER_Q" components phase diffusing_species d) datasets);
  '(best_q, fit_q) ←
    select_best lstsq np_log generate_multiplier Q_test_models site_fractions Y p;
  '(site_fractions, Y, g) ←
    collect getattr_v site_fraction_generator (d0_transform np_log) phase g
      (filter (fun d => query "TRACER_D0" components phase diffusing_species d) datasets);
  '(best_d, fit_d) ←
    select_best lstsq np_log generate_multiplier D0_test_models site_fractions Y p;
  Ok (best_q, fit_q, best_d, fit_d, g).

End Selections.

(** A run on a database that already holds the coefficients 0 and 1. *)
Definition run_on_database
  : result (list Fit.MobilityTerm * list (string * Fit.Expr) * unit) :=
  Fit.fit Example.lstsq Example.np_log Example.getattr_v
    Example.site_fraction_generator Example.generate_multiplier Example.vname
    Utils.find_last_variable [Example.record_Q; Example.record_D0]
    ({[0%nat; 1%nat]} : gset nat) ["A"%string] "BCC" "A"
    [[Example.term_A]] [[Example.term_A]] tt 1.

(** * Properties *)

(** ** The error monad *)


Lemma py_div_nonzero (a b : Q) : ~ b == 0 -> py_div a b = Ok (a / b).
Proof.
  intros Hb. unfold py_div.
  destruct (Qeq_bool b 0) eqn:E; [|reflexivity].
  apply Qeq_bool_iff in E. contradiction.
Qed.

(** ** least_squares_fit *)

Section LeastSquaresProperties.

Import LeastSquares.

Variable lstsq : list (list Q) -> list Q -> result (list Q).
Variable np_log : Q -> Q.

Lemma Qle_bool_false (x y : Q) : Qle_bool x y = false -> y < x.
Proof.
  intros E. apply Qnot_le_lt. intros H.
  apply Qle_bool_iff in H. congruence.
Qed.

(** On exact rationals the branch taken divides by a positive number,
    whatever [n] and [pk]. *)
Lemma selected_denominator_pos (n : nat) (pk : Q) :
  0 < selected_denominator n pk.
Proof.
  unfold selected_denominator.
  destruct (Qle_bool (Qnat n - 1) pk) eqn:E.
  - apply Qle_bool_iff in E. lra.
  - apply Qle_bool_false in E. lra.
Qed.

Lemma aicc_correction_selected (n : nat) (pk : Q) :
  aicc_correction n pk = Ok ((2 * pk ^ 2 + 2 * pk) / selected_denominator n pk).
Proof.
  pose proof (selected_denominator_pos n pk) as Hpos.
  unfold aicc_correction, selected_denominator in *.
  destruct (Qle_bool (Qnat n - 1) pk); apply py_div_nonzero; lra.
Qed.

End LeastSquaresProperties.

Section CorrectionProperties.

Import LeastSquares.

Lemma Qnat_S (n : nat) : Qnat (S n) == Qnat n + 1.
Proof.
  unfold Qnat. rewrite Nat2Z.inj_succ, <- Z.add_1_r, inject_Z_plus. reflexivity.
Qed.

Lemma Qnat_nonneg (n : nat) : 0 <= Qnat n.
Proof.
  unfold Qnat. change 0 with (inject_Z 0). rewrite <- Zle_Qle. lia.
Qed.

(** C4, as the code has it: the corrections at [pk = n - 2] (divisor
    [n - pk - 1 = 1]) and at [pk = n] (divisor [-n + pk + 3 = 3]) are both
    computed, both are non-negative, and so their signs are never opposite. *)
Theorem aicc_correction_same_sign (n : nat) :
  exists c_below c_above,
    aicc_correction n (Qnat n - 2) = Ok c_below
    /\ aicc_correction n (Qnat n) = Ok c_above
    /\ selected_denominator n (Qnat n - 2) == 1
    /\ selected_denominator n (Qnat n) == 3
    /\ 0 <= c_below /\ 0 <= c_above
    /\ ~ opposite_sign c_below c_above.
Proof.
  do 2 eexists. do 2 (split; [apply aicc_correction_selected|]).
  assert (E1 : selected_denominator n (Qnat n - 2) == 1).
  { unfold selected_denominator.
    destruct (Qle_bool (Qnat n - 1) (Qnat n - 2)) eqn:E.
    - apply Qle_bool_iff in E. lra.
    - ring. }
  assert (E2 : selected_denominator n (Qnat n) == 3).
  { unfold selected_denominator.
    destruct (Qle_bool (Qnat n - 1) (Qnat n)) eqn:E.
    - ring.
    - apply Qle_bool_false in E. lra. }
  assert (H1 : 0 <= (2 * (Qnat n - 2) ^ 2 + 2 * (Qnat n - 2))
                    / selected_denominator n (Qnat n - 2)).
  { rewrite E1. unfold Qdiv. change (/ 1) with 1. rewrite Qmult_1_r.
    destruct n as [|[|[|m]]]; [vm_compute; discriminate ..|].
    rewrite !Qnat_S. pose proof (Qnat_nonneg m) as Hm.
    setoid_replace (2 * (Qnat m + 1 + 1 + 1 - 2) ^ 2 + 2 * (Qnat m + 1 + 1 + 1 - 2))
      with (2 * (Qnat m + 1) * (Qnat m + 2)) using relation Qeq by ring.
    apply Qmult_le_0_compat; [apply Qmult_le_0_compat|]; lra. }
  assert (H2 : 0 <= (2 * Qnat n ^ 2 + 2 * Qnat n) / selected_denominator n (Qnat n)).
  { rewrite E2. pose proof (Qnat_nonneg n) as Hn.
    setoid_replace ((2 * Qnat n ^ 2 + 2 * Qnat n) / 3)
      with ((2 # 3) * Qnat n * (Qnat n + 1)) using relation Qeq by field.
    apply Qmult_le_0_compat; [apply Qmult_le_0_compat|]; lra. }
  repeat split; try assumption.
  unfold opposite_sign. lra.
Qed.

(** C4 at three observations: the corrections are 4 and 8, both positive. *)
Lemma aicc_correction_sign_counterexample :
  exists c_below c_above,
    aicc_correction 3 (Qnat 3 - 2) = Ok c_below
    /\ aicc_correction 3 (Qnat 3) = Ok c_above
    /\ c_below == 4 /\ c_above == 8
    /\ ~ opposite_sign c_below c_above.
Proof.
  do 2 eexists. do 2 (split; [vm_compute; reflexivity|]).
  split; [reflexivity|]. split; [reflexivity|].
  unfold opposite_sign. lra.
Qed.

End CorrectionProperties.

(** ** least_squares_fit on binary64 numbers *)

Section Binary64Properties.

Import PrimFloat.
Local Open Scope float_scope.

Variable lstsq : list (list float) -> list float -> result (list float).
Variable matmul : list (list float) -> list float -> list float.
Variable np_sum : list float -> float.
Variable np_log : float -> float.

(** With two observations and one term, the penalty 1 meets the boundary
    [pk = n - 1]: the first branch divides by 2 and the correction is 2. *)
Lemma aicc_correction_at_boundary :
  Binary64.aicc_correction 2 (1 * Binary64.of_int 1) = Ok 2.
Proof. vm_compute. reflexivity. Qed.

(** For the penalty next below 1 the test [pk >= n - 1] fails, [2 - pk]
    rounds to 1 and the divisor [n - pk - 1] of the second branch is 0. *)
Lemma aicc_correction_rounded_divisor :
  let pk := Binary64.penalty * Binary64.of_int 1 in
  (Binary64.of_int 2 - 1 <=? pk) = false
  /\ Binary64.of_int 2 - pk = 1
  /\ (Binary64.of_int 2 - pk - 1 =? 0) = true.
Proof. vm_compute. done. Qed.

Lemma aicc_correction_raises :
  Binary64.aicc_correction 2 (Binary64.penalty * Binary64.of_int 1)
  = Raise ZeroDivisionError.
Proof. vm_compute. reflexivity. Qed.

(** C3, on the code's floats: with [n = 2] observations, [k = 1] term and
    the positive penalty [p = 0.9999999999999999], the test [pk >= n - 1]
    is false, the divisor [n - pk - 1] of the branch taken is computed as
    zero and the correction raises [ZeroDivisionError]. *)
Theorem aicc_correction_zero_division :
  let n := 2%nat in
  let k := 1%nat in
  let p := Binary64.penalty in
  let pk := p * Binary64.of_int k in
  (1 <= n)%nat /\ (1 <= k)%nat /\ (0 <? p) = true
  /\ (Binary64.of_int n - 1 <=? pk) = false
  /\ (Binary64.of_int n - pk - 1 =? 0) = true
  /\ Binary64.aicc_correction n pk = Raise ZeroDivisionError.
Proof.
  cbv zeta. split; [lia|]. split; [lia|].
  repeat split; vm_compute; reflexivity.
Qed.

(** C2, on the code's floats: for a design matrix of two rows and one
    column, whatever its entries, the targets and the solution numpy
    returns, [least_squares_fit] with the penalty [0.9999999999999999]
    returns no score: the correction raises [ZeroDivisionError]. *)
Theorem least_squares_fit_zero_division (a1 a2 : float) (b x : list float) :
  lstsq [[a1]; [a2]] b = Ok x ->
  Binary64.least_squares_fit lstsq matmul np_sum np_log [[a1]; [a2]] b
    Binary64.penalty
  = Raise ZeroDivisionError.
Proof.
  intros Hx. unfold Binary64.least_squares_fit. rewrite Hx.
  cbn [mbind result_bind length].
  by rewrite aicc_correction_raises.
Qed.

End Binary64Properties.

Section Binary64Witnesses.

Import PrimFloat.
Local Open Scope float_scope.

Lemma least_squares_fit_zero_division_witness :
  Binary64.least_squares_fit (fun _ _ => Ok [1.5])
    (fun A x => map (fun r => fold_left add (zip_with mul r x) 0) A)
    (fun l => fold_left add l 0) (fun y => y - 1)
    [[1]; [1]] [1; 2] Binary64.penalty
  = Raise ZeroDivisionError.
Proof.
  exact (least_squares_fit_zero_division (fun _ _ => Ok [1.5]) _ _ _
           1 1 [1; 2] [1.5] eq_refl).
Defined.

End Binary64Witnesses.

(** ** Python dicts *)

Section PyDictProperties.
Context {K V : Type} `{EqDecision K}.
Implicit Types (d : list (K * V)) (k : K) (v : V).

Lemma get_set_eq d k v : PyDict.get (PyDict.set d k v) k = Some v.
Proof.
  induction d as [|[k' v'] d IH]; simpl.
  - rewrite decide_True; done.
  - destruct (decide (k = k')) as [->|Hne]; simpl.
    + rewrite decide_True; done.
    + rewrite decide_False; done.
Qed.

Lemma get_set_ne d k k' v : k ≠ k' -> PyDict.get (PyDict.set d k v) k' = PyDict.get d k'.
Proof.
  intros Hne. induction d as [|[k0 v0] d IH]; simpl.
  - rewrite decide_False; done.
  - destruct (decide (k = k0)) as [->|Hne0]; simpl.
    + rewrite !decide_False; done.
    + destruct (decide (k' = k0)); done.
Qed.

Lemma get_Some_keys d k v : PyDict.get d k = Some v -> k ∈ PyDict.keys d.
Proof.
  induction d as [|[k' v'] d IH]; simpl; [done|].
  destruct (decide (k = k')) as [->|Hne]; intros Hg.
  - apply list_elem_of_here.
  - apply list_elem_of_further, IH, Hg.
Qed.


Lemma keys_set_fresh d k v :
  k ∉ PyDict.keys d -> PyDict.set d k v = d ++ [(k, v)].
Proof.
  induction d as [|[k' v'] d IH]; simpl; [done|].
  rewrite not_elem_of_cons. intros [Hne Hnot].
  rewrite decide_False by done. by rewrite IH.
Qed.

End PyDictProperties.

(** ** EquilibriumSiteFractionGenerator *)

Section EquilibriumProperties.

Import EquilibriumSiteFractionGenerator.

Context {Database Model PhaseRecord : Type}.
Variable Model_new : Database -> list string -> string -> Model.
Variable PhaseRecordFactory :
  Database -> list string -> list StateVariable -> list (string * Model) -> PhaseRecord.
Variable model_constituents : Model -> list (gset string).
Variable phase_constituents : Database -> string -> list (gset string).
Variable local_equilibrium :
  Database -> list string -> list string -> list (StateVariable * Q) ->
  list (string * Model) -> PhaseRecord -> result (list (list Q)).

Local Abbreviation Gen := (@Generator Database Model PhaseRecord).
Local Abbreviation gen_records := (_generate_phase_records Model_new PhaseRecordFactory model_constituents).
Local Abbreviation gen_call :=
  (call Model_new PhaseRecordFactory model_constituents local_equilibrium).

Lemma set_of_sorted (l : list string) :
  list_to_set (C := gset string) (sorted l) = list_to_set l.
Proof. unfold sorted. apply list_to_set_perm_L, merge_sort_Permutation. Qed.

Lemma set_of_canonical (l : list string) :
  list_to_set (C := gset string) (canonical l) = list_to_set l.
Proof.
  unfold canonical. rewrite set_of_sorted.
  apply set_eq. intros x. rewrite !elem_of_list_to_set. apply elem_of_remove_dups.
Qed.

Lemma comps_key_canonical (A B : list string) :
  canonical A = canonical B ->
  (_generate_comps_key A).1 = (_generate_comps_key B).1.
Proof.
  intros Hc. unfold _generate_comps_key. simpl.
  rewrite !set_of_sorted, <- (set_of_canonical A), <- (set_of_canonical B).
  by rewrite Hc.
Qed.

Lemma generate_phase_records_models (self : Gen) (components : list string) :
  is_Some (models (gen_records self components).1
             !! (_generate_comps_key components).1).
Proof.
  unfold _generate_phase_records, _generate_comps_key.
  destruct (models self !! list_to_set (sorted components)) eqn:E; simpl.
  - rewrite E. eauto.
  - rewrite lookup_insert_eq. eauto.
Qed.

(** C7: for two component collections with the same canonical form, the
    request for the second, made after the request for the first, finds the
    cache entry of the first: it performs no construction, leaves the
    generator as it is, and the bundle of models, phase records and
    constituents under its key is the one cached for the first.  Over the two
    requests the model and the phase records are constructed at most once,
    and exactly once when the key was new. *)
Theorem generate_phase_records_cached (self : Gen) (A B : list string) :
  canonical A = canonical B ->
  let first := gen_records self A in
  let second := gen_records first.1 B in
  let key_A := (_generate_comps_key A).1 in
  let key_B := (_generate_comps_key B).1 in
  second.2 = []
  /\ second.1 = first.1
  /\ cached second.1 key_B = cached first.1 key_A
  /\ constructions (gen_call first.1 B []) = []
  /\ (models self !! key_A = None ->
      first.2 ++ second.2 = [BuildModel (sorted A); BuildPhaseRecords (sorted A)]
      /\ is_Some (cached second.1 key_B))
  /\ (is_Some (models self !! key_A) -> first.2 ++ second.2 = []).
Proof.
  intros Hc first second key_A key_B.
  assert (Hkey : key_B = key_A) by (symmetry; by apply comps_key_canonical).
  pose proof (generate_phase_records_models self A) as [ms Hms].
  fold first key_A in Hms.
  assert (Hsecond : second = (first.1, [])).
  { unfold second, _generate_phase_records.
    unfold key_B in Hkey.
    destruct (_generate_comps_key B) as [kb cb]. simpl in Hkey. subst kb.
    by rewrite Hms. }
  split; [by rewrite Hsecond|]. split; [by rewrite Hsecond|].
  split; [by rewrite Hsecond, Hkey|].
  split.
  { unfold call. destruct (_generate_comps_key B) as [kb cb].
    fold second. by rewrite Hsecond. }
  split.
  - intros Hnone. rewrite Hsecond, Hkey. simpl.
    unfold first, _generate_phase_records, key_A in *.
    destruct (_generate_comps_key A) as [ka ca] eqn:EA. simpl in *.
    rewrite Hnone. simpl.
    assert (ca = sorted A) as -> by (unfold _generate_comps_key in EA; congruence).
    split; [done|].
    unfold cached; simpl. rewrite !lookup_insert_eq. simpl. eauto.
  - intros [ms' Hsome]. rewrite Hsecond. simpl.
    unfold first, _generate_phase_records, key_A in *.
    destruct (_generate_comps_key A) as [ka ca]. simpl in *.
    by rewrite Hsome.
Qed.

Lemma apply_overrides_get (override conditions : list (StateVariable * Q))
  (keys : list StateVariable) (key : StateVariable) :
  PyDict.get
    (fold_left
       (fun conditions oc =>
          match PyDict.get override oc with
          | Some value => PyDict.set conditions oc value
          | None => conditions
          end) keys conditions) key
  = match PyDict.get override key with
    | Some value => if decide (key ∈ keys) then Some value else PyDict.get conditions key
    | None => PyDict.get conditions key
    end.
Proof.
  revert conditions. induction keys as [|oc keys IH]; intros conditions; cbn [fold_left].
  - destruct (PyDict.get override key); [|done].
    case_decide as Hin; [by apply elem_of_nil in Hin | done].
  - rewrite IH. destruct (PyDict.get override key) as [value|] eqn:Ekey.
    + destruct (decide (key ∈ keys)) as [Hin|Hnin].
      * case_decide as Hin'; [done | exfalso; apply Hin'; by apply list_elem_of_further].
      * destruct (decide (oc = key)) as [->|Hne].
        -- rewrite Ekey, get_set_eq.
           case_decide as Hin'; [done | exfalso; apply Hin', list_elem_of_here].
        -- case_decide as Hin'.
           { apply elem_of_cons in Hin' as [?|?]; done. }
           destruct (PyDict.get override oc); [by rewrite get_set_ne | done].
    + destruct (PyDict.get override oc) as [value|] eqn:Eoc; [|done].
      rewrite get_set_ne; [done | congruence].
Qed.

Lemma generate_phase_records_override (self : Gen) (components : list string) :
  _conditions_override (gen_records self components).1 = _conditions_override self.
Proof.
  unfold _generate_phase_records.
  destruct (_generate_comps_key components) as [k c].
  by destruct (models self !! k).
Qed.

(** C10: a call writes the overrides into the caller's conditions: after
    the call, whether it returned site fractions or raised from the solver,
    every override key is bound to its override value in the caller's
    mapping and every other entry is as it was.  For a generator fresh from
    [__init__] the overrides are [N = 1] and [GE = 0]. *)
Theorem call_mutates_conditions (self : Gen) (components : list string)
  (conditions : list (StateVariable * Q)) :
  let after := conditions_after (gen_call self components conditions) in
  (forall oc value,
      PyDict.get (_conditions_override self) oc = Some value ->
      PyDict.get after oc = Some value)
  /\ (forall key,
      PyDict.get (_conditions_override self) key = None ->
      PyDict.get after key = PyDict.get conditions key)
  /\ (forall database phase,
      let after0 :=
        conditions_after
          (gen_call (init phase_constituents database phase) components conditions) in
      PyDict.get after0 N = Some 1
      /\ PyDict.get after0 GE = Some 0
      /\ forall key, key ≠ N -> key ≠ GE ->
           PyDict.get after0 key = PyDict.get conditions key).
Proof.
  assert (Hafter : forall self : Gen,
    conditions_after (gen_call self components conditions)
    = apply_overrides (_conditions_override self) conditions).
  { intros s. unfold call. destruct (_generate_comps_key components) as [k c].
    pose proof (generate_phase_records_override s components) as Ho.
    destruct (gen_records s components) as [s' built]. simpl in *. by rewrite Ho. }
  intros after. unfold after. rewrite Hafter.
  split; [|split].
  - intros oc value Hoc. unfold apply_overrides. rewrite apply_overrides_get, Hoc.
    rewrite decide_True; [done | by eapply get_Some_keys].
  - intros key Hkey. unfold apply_overrides. by rewrite apply_overrides_get, Hkey.
  - intros database phase. cbv zeta. rewrite !Hafter.
    unfold apply_overrides. cbn -[PyDict.get PyDict.set].
    change (PyDict.get [(N, 1); (GE, 0)] GE) with (Some 0).
    change (PyDict.get [(N, 1); (GE, 0)] N) with (Some 1).
    split; [|split].
    + rewrite get_set_ne by done. apply get_set_eq.
    + apply get_set_eq.
    + intros key HN HG. rewrite !get_set_ne; done.
Qed.

End EquilibriumProperties.

(** ** SiteFractionGenerator *)

Section DirectProperties.

Import SiteFractionGenerator.

Context {SiteFractions : Type}.
Variable create_site_fractions : gmap string Q -> SiteFractions.

Lemma substring_all (s : string) : String.substring 0 (String.length s) s = s.
Proof. induction s as [|a s IH]; simpl; [done | by rewrite IH]. Qed.

(** [key.name[2:]] of a mole fraction is its species. *)
Lemma mole_fraction_species (species : string) :
  slice_from 2 (sv_name (X species)) = species.
Proof.
  unfold slice_from. simpl. rewrite Nat.sub_0_r. apply substring_all.
Qed.

Lemma composition_of_snoc (components : list string)
  (conditions : list (StateVariable * Q)) (key : StateVariable) (val : Q) :
  composition_of components (conditions ++ [(key, val)])
  = if is_MoleFraction key
    then apply_mole_fraction (composition_of components conditions) key val
    else composition_of components conditions.
Proof. unfold composition_of. by rewrite fold_left_app. Qed.

(** C8: the generator hands [create_site_fractions] a composition that
    holds every component but the vacancy [VA] at 1 before any condition is
    applied; each mole-fraction condition, in the order of the mapping,
    binds its species to exactly its value and lowers every other entry by
    that value, and any other condition changes nothing.  For the components
    A, B, VA and the one condition [X(B) = 0.3] the composition is
    [A: 0.7, B: 0.3]. *)
Theorem direct_generator_composition :
  (forall components conditions,
      call create_site_fractions components conditions
      = create_site_fractions (composition_of components conditions))
  /\ (forall components (c : string),
      composition_of components [] !! c
      = if decide (c ∈ components /\ c ≠ "VA"%string) then Some 1 else None)
  /\ (forall components conditions species val,
      let before := composition_of components conditions in
      let after := composition_of components (conditions ++ [(X species, val)]) in
      after !! species = Some val
      /\ forall c : string, c ≠ species ->
           after !! c = (fun share => share - val) <$> before !! c)
  /\ (forall components conditions key val,
      is_MoleFraction key = false ->
      composition_of components (conditions ++ [(key, val)])
      = composition_of components conditions)
  /\ composition_of ["A"; "B"; "VA"]%string [(X "B", 3 # 10)]
     = {[ "A"%string := 7 # 10; "B"%string := 3 # 10 ]}.
Proof.
  split; [done|]. split; [|split; [|split]].
  - intros components c. unfold composition_of. simpl.
    rewrite lookup_gset_to_gmap.
    assert (Hmem : c ∈ (list_to_set components ∖ list_to_set ["VA"%string] : gset string)
                   <-> c ∈ components /\ c ≠ "VA"%string).
    { rewrite elem_of_difference, !elem_of_list_to_set, list_elem_of_singleton. tauto. }
    destruct (decide (c ∈ components /\ c ≠ "VA"%string)) as [Hin|Hn].
    + rewrite option_guard_True; [done | by apply Hmem].
    + rewrite option_guard_False; [done | by rewrite Hmem].
  - intros components conditions species val. cbv zeta.
    rewrite composition_of_snoc. simpl. unfold apply_mole_fraction.
    rewrite mole_fraction_species. split.
    + apply lookup_insert_eq.
    + intros c Hne. rewrite lookup_insert_ne by done. by rewrite lookup_fmap.
  - intros components conditions key val Hkey.
    rewrite composition_of_snoc. by rewrite Hkey.
  - vm_compute. reflexivity.
Qed.

End DirectProperties.

(** ** The accumulation of selected terms *)

Section MergeProperties.

Import Fit Merge.

Lemma first_occurrences_snoc {A} `{EqDecision A} (l : list A) (k : A) :
  first_occurrences (l ++ [k])
  = if decide (k ∈ first_occurrences l) then first_occurrences l
    else first_occurrences l ++ [k].
Proof. unfold first_occurrences. by rewrite fold_left_app. Qed.

Lemma elem_of_first_occurrences {A} `{EqDecision A} (l : list A) (k : A) :
  k ∈ first_occurrences l <-> k ∈ l.
Proof.
  induction l as [|x l IH] using rev_ind; [done|].
  rewrite first_occurrences_snoc, elem_of_app, list_elem_of_singleton.
  case_decide as Hx.
  - rewrite IH. split; [tauto|]. intros [?| ->]; [done | by apply IH].
  - rewrite elem_of_app, list_elem_of_singleton, IH. tauto.
Qed.

Lemma NoDup_first_occurrences {A} `{EqDecision A} (l : list A) :
  NoDup (first_occurrences l).
Proof.
  induction l as [|x l IH] using rev_ind; [apply NoDup_nil_2|].
  rewrite first_occurrences_snoc. case_decide as Hx; [done|].
  apply NoDup_app. split; [done|]. split; [|apply NoDup_singleton].
  intros y Hy ->%list_elem_of_singleton. done.
Qed.

Lemma merged_expr_snoc (key : list (list string) * nat) (cs : list contribution)
  (c : contribution) :
  merged_expr key (cs ++ [c])
  = if decide (c_key c = key) then EAdd (merged_expr key cs) (summand c)
    else merged_expr key cs.
Proof.
  unfold merged_expr. rewrite filter_app, fold_left_app.
  rewrite filter_cons, filter_nil. by case_decide.
Qed.

Lemma merged_expr_absent (key : list (list string) * nat) (cs : list contribution) :
  key ∉ map c_key cs -> merged_expr key cs = EConst 0.
Proof.
  induction cs as [|c cs IH] using rev_ind; [done|].
  rewrite map_app, not_elem_of_app. simpl. rewrite list_elem_of_singleton.
  intros [Hcs Hc]. rewrite merged_expr_snoc.
  case_decide; [congruence | by apply IH].
Qed.

Lemma term_key_merged_term (cs : list contribution) (key : list (list string) * nat) :
  term_key (merged_term cs key) = key.
Proof. by destruct key. Qed.

Lemma term_in_iff (term : MobilityTerm) (model : list MobilityTerm) :
  term_in term model = true <-> term_key term ∈ map term_key model.
Proof.
  unfold term_in. induction model as [|f model IH]; simpl.
  - split; [done | by intros ?%elem_of_nil].
  - rewrite orb_true_iff, IH, elem_of_cons. unfold MobilityTerm_eq.
    rewrite bool_decide_eq_true. split; intros [?|?]; auto.
Qed.

Lemma term_index_found (term : MobilityTerm) (model : list MobilityTerm) :
  term_in term model = true ->
  exists i f,
    term_index term model = Ok i
    /\ model !! i = Some f /\ term_key f = term_key term.
Proof.
  unfold term_in. induction model as [|f model IH]; simpl; [done|].
  destruct (MobilityTerm_eq f term) eqn:E; simpl.
  - intros _. exists O, f. repeat split.
    unfold MobilityTerm_eq in E. by apply bool_decide_eq_true in E.
  - intros (i & f' & -> & Hf & Hk)%IH. exists (S i), f'. by repeat split.
Qed.

Lemma term_index_appended (term new : MobilityTerm) (model : list MobilityTerm) :
  term_in term model = false ->
  term_key new = term_key term ->
  term_index term (model ++ [new]) = Ok (length model).
Proof.
  unfold term_in. intros Hin Hnew. induction model as [|f model IH]; simpl in *.
  - unfold MobilityTerm_eq. by rewrite bool_decide_eq_true_2.
  - apply orb_false_iff in Hin as [-> Hin]. by rewrite IH.
Qed.

Lemma merged_term_other (cs : list contribution) (c : contribution)
  (k : list (list string) * nat) :
  k ≠ c_key c -> merged_term (cs ++ [c]) k = merged_term cs k.
Proof.
  intros Hk. unfold merged_term. rewrite merged_expr_snoc.
  by rewrite decide_False.
Qed.

Lemma merged_model_keys (cs : list contribution) :
  map term_key (merged_model cs) = first_occurrences (map c_key cs).
Proof.
  unfold merged_model. rewrite map_map. erewrite map_ext; [apply map_id|].
  intros k. apply term_key_merged_term.
Qed.

(** A contribution to a key not seen before opens a new entry. *)
Lemma merged_model_snoc_new (cs : list contribution) (c : contribution) :
  c_key c ∉ map term_key (merged_model cs) ->
  merged_model (cs ++ [c])
  = merged_model cs
    ++ [set_expr (MobilityTerm_new (c_key c).1 (c_key c).2)
          (EAdd (EConst 0) (summand c))].
Proof.
  rewrite merged_model_keys. intros Hnin. unfold merged_model.
  rewrite map_app. simpl. rewrite first_occurrences_snoc.
  rewrite decide_False by done. rewrite map_app. simpl. f_equal.
  - apply map_ext_in. intros k Hk%list_elem_of_In.
    apply merged_term_other. by intros ->.
  - f_equal. unfold merged_term, set_expr, MobilityTerm_new. simpl. f_equal.
    rewrite merged_expr_snoc. rewrite decide_True by done.
    f_equal. apply merged_expr_absent.
    by rewrite <- (elem_of_first_occurrences (map c_key cs)).
Qed.

(** A contribution to a key already there is added to that entry. *)
Lemma merged_model_snoc_old (cs : list contribution) (c : contribution)
  (i : nat) (f : MobilityTerm) :
  merged_model cs !! i = Some f ->
  term_key f = c_key c ->
  merged_model (cs ++ [c])
  = alter (fun f => set_expr f (EAdd (expr f) (summand c))) i (merged_model cs).
Proof.
  intros Hi Hf.
  assert (Hki : first_occurrences (map c_key cs) !! i = Some (c_key c)).
  { rewrite <- merged_model_keys, list_lookup_fmap, Hi. simpl. by rewrite Hf. }
  assert (Hin : c_key c ∈ first_occurrences (map c_key cs))
    by (apply list_elem_of_lookup; eauto).
  pose proof (NoDup_first_occurrences (map c_key cs)) as Hnd.
  unfold merged_model in *. rewrite map_app. simpl.
  rewrite first_occurrences_snoc. rewrite decide_True by done.
  set (keys := first_occurrences (map c_key cs)) in *.
  apply list_eq. intros j. rewrite list_lookup_fmap.
  destruct (decide (j = i)) as [->|Hne].
  - rewrite list_lookup_alter_eq, list_lookup_fmap, Hki. simpl. f_equal.
    unfold merged_term, set_expr. simpl. rewrite merged_expr_snoc.
    by rewrite decide_True.
  - rewrite list_lookup_alter_ne, list_lookup_fmap by done.
    destruct (keys !! j) as [k|] eqn:Ek; [|done]. simpl. f_equal.
    apply merged_term_other. intros ->.
    pose proof (NoDup_lookup _ _ _ _ Hnd Ek Hki). done.
Qed.

Variable _vname : nat -> string.

(** One turn of the loop adds the contribution it mints to the merged model. *)
Lemma accumulate_step_merged (multiplier : Expr) (cs : list contribution)
  (symbols : list (string * Expr)) (v : nat) (term : MobilityTerm) (coef : Q) :
  let c := {| c_key := term_key term; c_name := _vname v; c_coef := coef;
              c_multiplier := multiplier |} in
  accumulate_step _vname multiplier (merged_model cs, symbols, v) (term, coef)
  = Ok (merged_model (cs ++ [c]), register symbols [c], (v + 1)%nat).
Proof.
  intros c. unfold accumulate_step.
  destruct (term_in term (merged_model cs)) eqn:Hin; simpl.
  - destruct (term_index_found _ _ Hin) as (i & f & -> & Hi & Hf). simpl.
    by rewrite (merged_model_snoc_old cs c i f).
  - rewrite (term_index_appended term
               (MobilityTerm_new (constituent_array term) (order term)))
      by done.
    simpl. rewrite (merged_model_snoc_new cs c).
    + rewrite <- (Nat.add_0_r (length (merged_model cs))), alter_app_r. done.
    + simpl. intros Hk%term_in_iff. congruence.
Qed.

Lemma number_from_app (v : nat) (l1 l2 : list (MobilityTerm * Q * Expr)) :
  number_from _vname v (l1 ++ l2)
  = number_from _vname v l1 ++ number_from _vname (v + length l1) l2.
Proof.
  revert v. induction l1 as [|[[t q] m] l1 IH]; intros v; simpl.
  - by rewrite Nat.add_0_r.
  - rewrite IH. do 3 f_equal. lia.
Qed.

Lemma length_number_from (v : nat) (l : list (MobilityTerm * Q * Expr)) :
  length (number_from _vname v l) = length l.
Proof.
  revert v. induction l as [|[[t q] m] l IH]; intros v; simpl; [done|].
  by rewrite IH.
Qed.

Lemma register_app (symbols : list (string * Expr)) (cs1 cs2 : list contribution) :
  register symbols (cs1 ++ cs2) = register (register symbols cs1) cs2.
Proof. unfold register. apply fold_left_app. Qed.

(** The loop over the pairs of one pass. *)
Lemma accumulate_merged (multiplier : Expr) (pairs : list (MobilityTerm * Q))
  (cs : list contribution) (symbols : list (string * Expr)) (v : nat) :
  let new := number_from _vname v (map (fun tc => (tc.1, tc.2, multiplier)) pairs) in
  accumulate _vname multiplier (merged_model cs, symbols, v) pairs
  = Ok (merged_model (cs ++ new), register symbols new, (v + length pairs)%nat).
Proof.
  revert cs symbols v. induction pairs as [|[term coef] pairs IH]; intros cs symbols v.
  - simpl. by rewrite app_nil_r, Nat.add_0_r.
  - cbn [accumulate]. rewrite accumulate_step_merged. cbn [mbind result_bind].
    rewrite IH. simpl. rewrite <- app_assoc. simpl.
    rewrite Nat.add_1_r. do 2 f_equal. lia.
Qed.

(** The loops of all the passes of a run, from any state already merged. *)
Lemma accumulate_passes_merged (sels : list (Expr * list (MobilityTerm * Q)))
  (cs : list contribution) (symbols : list (string * Expr)) (v : nat) :
  let new := number_from _vname v (flat_selection sels) in
  accumulate_passes _vname (merged_model cs, symbols, v) sels
  = Ok (merged_model (cs ++ new), register symbols new, (v + length new)%nat).
Proof.
  revert cs symbols v. induction sels as [|[multiplier pairs] sels IH];
    intros cs symbols v.
  - simpl. by rewrite app_nil_r, Nat.add_0_r.
  - cbn [accumulate_passes]. rewrite accumulate_merged. cbn [mbind result_bind].
    rewrite IH. cbn [flat_selection flat_map]. fold (flat_selection sels).
    rewrite number_from_app, length_map.
    rewrite <- app_assoc, register_app, length_app, !length_number_from, length_map.
    do 2 f_equal. lia.
Qed.

End MergeProperties.

(** ** fit as a sequence of accumulations *)

Section FitStructure.

Import Fit Merge.

Variable lstsq : list (list Q) -> list Q -> result (list Q).
Variable np_log : Q -> Q.
Variable getattr_v : string -> result StateVariable.
Context {Generator : Type}.
Variable site_fraction_generator :
  Generator -> list string -> list (StateVariable * Q) ->
  result (list (sf_key * Q) * Generator).
Variable generate_multiplier : MobilityTerm -> list (sf_key * Q) -> result Q.
Variable _vname : nat -> string.
Context {Database : Type}.
Variable find_last_variable : Database -> nat.

Lemma mapM_Ok {A B} (f : A -> result B) (l : list A) (r : list B) :
  mapM f l = Ok r -> Forall2 (fun x y => f x = Ok y) l r.
Proof.
  revert r. induction l as [|x l IH]; intros r; simpl.
  - intros [= <-]. constructor.
  - destruct (f x) as [y|e] eqn:Hx; simpl; [|discriminate].
    destruct (mapM f l) as [k|e]; simpl; [|discriminate].
    intros [= <-]. constructor; [done | by apply IH].
Qed.

Lemma list_get_Ok {A} (l : list A) (i : nat) (a : A) :
  list_get l i = Ok a <-> l !! i = Some a.
Proof.
  unfold list_get. destruct (l !! i); split; intros H; by inversion H.
Qed.

(** The best model is one of the candidates and its coefficients are the
    least-squares solution for it. *)
Lemma select_best_Ok (test_models : list (list MobilityTerm))
  (site_fractions : list (list (sf_key * Q))) (Y : list Q) (p : Q)
  (best_model : list MobilityTerm) (best_fit : list Q) :
  select_best lstsq np_log generate_multiplier test_models site_fractions Y p
  = Ok (best_model, best_fit) ->
  best_model ∈ test_models
  /\ exists X aicc,
       design_matrix generate_multiplier best_model site_fractions = Ok X
       /\ LeastSquares.least_squares_fit lstsq np_log X Y p = Ok (best_fit, aicc).
Proof.
  unfold select_best.
  destruct (mapM _ test_models) as [fits|e] eqn:Hfits; simpl; [|discriminate].
  destruct (np_argmin fits.*2) as [index|e]; simpl; [|discriminate].
  destruct (list_get test_models index) as [bm|e] eqn:Hbm; simpl; [|discriminate].
  destruct (list_get fits.*1 index) as [bf|e] eqn:Hbf; simpl; [|discriminate].
  intros [= <- <-].
  apply list_get_Ok in Hbm. apply list_get_Ok in Hbf.
  split; [by eapply list_elem_of_lookup_2|].
  apply mapM_Ok in Hfits.
  rewrite list_lookup_fmap in Hbf.
  destruct (fits !! index) as [[bf' aicc]|] eqn:Hfit; [|done].
  injection Hbf as ->.
  pose proof (Forall2_lookup_lr _ _ _ _ _ _ Hfits Hbm Hfit) as Hrun. simpl in Hrun.
  destruct (design_matrix generate_multiplier bm site_fractions) as [X|e];
    simpl in Hrun; [|discriminate].
  eauto.
Qed.

Lemma fit_pass_Ok (datasets : list Dataset) (components : gset string)
  (phase diffusing_species : string) (p : Q) (acc acc' : accumulator)
  (g g' : Generator) (marker : string) (transform : Q -> Q) (multiplier : Expr)
  (test_models : list (list MobilityTerm)) :
  fit_pass lstsq np_log getattr_v site_fraction_generator generate_multiplier
    _vname datasets components phase diffusing_species p (acc, g)
    (marker, transform, multiplier, test_models) = Ok (acc', g') ->
  exists best_model best_fit X Y aicc,
    best_model ∈ test_models
    /\ LeastSquares.least_squares_fit lstsq np_log X Y p = Ok (best_fit, aicc)
    /\ accumulate _vname multiplier acc (zip best_model best_fit) = Ok acc'.
Proof.
  unfold fit_pass.
  destruct (collect _ _ _ _ _ _) as [[[sfs Y] g1]|e]; simpl; [|discriminate].
  destruct (select_best _ _ _ _ _ _ _) as [[bm bf]|e] eqn:Hsel; simpl; [|discriminate].
  destruct (accumulate _ _ _ _) as [acc1|e] eqn:Hacc; simpl; [|discriminate].
  intros [= <- <-].
  apply select_best_Ok in Hsel as (Hin & X & aicc & _ & Hfit).
  exists bm, bf, X, Y, aicc. done.
Qed.

(** A run of [fit] that returns is the accumulation of the best model of the
    [Q] pass and then of the [D0] pass, closed over temperature. *)
Lemma fit_Ok (datasets : list Dataset) (database : Database)
  (components : list string) (phase diffusing_species : string)
  (Q_test_models D0_test_models : list (list MobilityTerm))
  (g g' : Generator) (p : Q)
  (model : list MobilityTerm) (symbols : list (string * Expr)) :
  fit lstsq np_log getattr_v site_fraction_generator generate_multiplier _vname
    find_last_variable datasets database components phase diffusing_species
    Q_test_models D0_test_models g p = Ok (model, symbols, g') ->
  exists best_q fit_q best_d fit_d,
    best_q ∈ Q_test_models /\ best_d ∈ D0_test_models
    /\ (exists X Y aicc,
          LeastSquares.least_squares_fit lstsq np_log X Y p = Ok (fit_q, aicc))
    /\ (exists X Y aicc,
          LeastSquares.least_squares_fit lstsq np_log X Y p = Ok (fit_d, aicc))
    /\ let cs :=
         number_from _vname (find_last_variable database)
           (flat_selection [(EConst 1, zip best_q fit_q);
                            (ETemperature, zip best_d fit_d)]) in
       model = map close_over_temperature (merged_model cs)
       /\ symbols = register [] cs.
Proof.
  unfold fit. cbn [fit_passes].
  destruct (fit_pass _ _ _ _ _ _ _ _ _ _ _ _ _) as [[acc1 g1]|e] eqn:H1;
    cbn [mbind result_bind]; [|discriminate].
  destruct (fit_pass _ _ _ _ _ _ _ _ _ _ _ (acc1, g1) _) as [[acc2 g2]|e] eqn:H2;
    cbn [mbind result_bind]; [|discriminate].
  destruct acc2 as [[model2 symbols2] v2]. intros [= <- <- <-].
  apply fit_pass_Ok in H1 as (bq & fq & Xq & Yq & aq & Hq & Hfq & Hacc1).
  apply fit_pass_Ok in H2 as (bd & fd & Xd & Yd & ad & Hd & Hfd & Hacc2).
  exists bq, fq, bd, fd. split; [done|]. split; [done|].
  split; [eauto|]. split; [eauto|].
  pose proof (accumulate_passes_merged _vname
                [(EConst 1, zip bq fq); (ETemperature, zip bd fd)] [] []
                (find_last_variable database)) as Hrun.
  change (merged_model []) with (@nil MobilityTerm) in Hrun.
  cbn [accumulate_passes] in Hrun. rewrite Hacc1 in Hrun.
  cbn [mbind result_bind] in Hrun. rewrite Hacc2 in Hrun.
  cbn [mbind result_bind] in Hrun. cbv zeta in Hrun.
  injection Hrun as -> -> _. done.
Qed.

End FitStructure.


(** ** The symbols of a run *)

Section SymbolProperties.

Import Fit Merge.

Variable _vname : nat -> string.

Lemma names_number_from (v : nat) (l : list (MobilityTerm * Q * Expr)) :
  map c_name (number_from _vname v l) = map _vname (seq v (length l)).
Proof.
  revert v. induction l as [|[[t q] m] l IH]; intros v; simpl; [done|].
  by rewrite IH.
Qed.

Lemma register_fresh (cs : list contribution) (symbols : list (string * Expr)) :
  NoDup (PyDict.keys symbols ++ map c_name cs) ->
  register symbols cs = symbols ++ symbol_table cs.
Proof.
  revert symbols. induction cs as [|c cs IH]; intros symbols Hnd; simpl.
  - by rewrite app_nil_r.
  - unfold register in *. simpl.
    assert (Hc : c_name c ∉ PyDict.keys symbols).
    { apply NoDup_app in Hnd as (_ & Hdisj & _). intros Hin.
      apply (Hdisj _ Hin). apply list_elem_of_here. }
    rewrite keys_set_fresh by done. rewrite IH.
    + by rewrite <- app_assoc.
    + unfold PyDict.keys in *. rewrite map_app. simpl.
      rewrite <- app_assoc. simpl. exact Hnd.
Qed.

Lemma get_symbol_table (cs : list contribution) (c : contribution) :
  NoDup (map c_name cs) -> c ∈ cs ->
  PyDict.get (symbol_table cs) (c_name c)
  = Some (EPiecewise (EConst (c_coef c)) 1 10000).
Proof.
  induction cs as [|c' cs IH]; simpl; [by intros _ ?%elem_of_nil|].
  intros [Hnin Hnd]%NoDup_cons [->|Hin]%elem_of_cons.
  - by rewrite decide_True.
  - rewrite decide_False; [by apply IH|].
    intros Heq. apply Hnin. rewrite <- Heq.
    apply list_elem_of_fmap. eauto.
Qed.

Hypothesis _vname_inj : Inj (=) (=) _vname.

Lemma NoDup_names (v : nat) (l : list (MobilityTerm * Q * Expr)) :
  NoDup (map c_name (number_from _vname v l)).
Proof.
  rewrite names_number_from. apply NoDup_fmap_2; [done | apply NoDup_seq].
Qed.

Lemma register_number_from (v : nat) (l : list (MobilityTerm * Q * Expr)) :
  register [] (number_from _vname v l) = symbol_table (number_from _vname v l).
Proof. apply (register_fresh _ []). simpl. apply NoDup_names. Qed.

End SymbolProperties.

(** ** fit *)

Section FitProperties.

Import Fit Merge.

Variable lstsq : list (list Q) -> list Q -> result (list Q).
Variable np_log : Q -> Q.
Variable getattr_v : string -> result StateVariable.
Context {Generator : Type}.
Variable site_fraction_generator :
  Generator -> list string -> list (StateVariable * Q) ->
  result (list (sf_key * Q) * Generator).
Variable generate_multiplier : MobilityTerm -> list (sf_key * Q) -> result Q.
Variable _vname : nat -> string.
Context {Database : Type}.
Variable find_last_variable : Database -> nat.

Local Abbreviation run_fit :=
  (fit lstsq np_log getattr_v site_fraction_generator generate_multiplier _vname
     find_last_variable).
Local Abbreviation run_collect := (collect getattr_v site_fraction_generator).

(** *** The record-collection loop *)

Lemma generated_site_fractions_length (g g' : Generator) (components : list string)
  (conds_list : list (StateVariable * list Q)) (indices : list nat)
  (rows : list (list (sf_key * Q))) :
  generated_site_fractions site_fraction_generator g components conds_list indices
  = Ok (rows, g') ->
  length rows = length indices.
Proof.
  revert g rows. induction indices as [|i indices IH]; intros g rows; simpl.
  - by intros [= <- _].
  - destruct (conditions_at conds_list i) as [conditions|e]; simpl; [|discriminate].
    destruct (site_fraction_generator g components conditions) as [[sf g1]|e];
      simpl; [|discriminate].
    destruct (generated_site_fractions _ g1 _ _ _) as [[sfs g2]|e] eqn:Hrest;
      simpl; [|discriminate].
    intros Heq. injection Heq as <- <-. simpl. f_equal. by eapply IH.
Qed.

Lemma collect_record_counts (transform : Q -> Q) (phase : string) (d : Dataset)
  (rows rows' : list (list (sf_key * Q))) (Y Y' : list Q) (g g' : Generator) :
  collect_record getattr_v site_fraction_generator transform phase (rows, Y, g) d
  = Ok (rows', Y', g') ->
  length rows' = (length rows + feature_rows d)%nat
  /\ length Y' = (length Y + target_values d)%nat.
Proof.
  unfold collect_record, feature_rows, target_values.
  destruct (conditions_list getattr_v d) as [conds_list|e]; simpl; [|discriminate].
  destruct (d_solver d) as [solver|]; simpl.
  - intros [= <- <- _]. rewrite !length_app, length_map.
    unfold solver_site_fractions. by rewrite length_map.
  - destruct (generated_site_fractions _ _ _ _ _) as [[new g1]|e] eqn:Hgen;
      simpl; [|discriminate].
    intros [= <- <- _]. rewrite !length_app, length_map.
    apply generated_site_fractions_length in Hgen.
    by rewrite Hgen, length_seq, length_map.
Qed.

Lemma collect_from_counts (transform : Q -> Q) (phase : string) (data : list Dataset)
  (rows rows' : list (list (sf_key * Q))) (Y Y' : list Q) (g g' : Generator) :
  collect_from getattr_v site_fraction_generator transform phase (rows, Y, g) data
  = Ok (rows', Y', g') ->
  length rows' = (length rows + sum_list (map feature_rows data))%nat
  /\ length Y' = (length Y + sum_list (map target_values data))%nat.
Proof.
  revert rows Y g. induction data as [|d data IH]; intros rows Y g;
    cbn [collect_from].
  - intros [= <- <- _]. simpl. lia.
  - destruct (collect_record getattr_v site_fraction_generator transform phase
                (rows, Y, g) d) as [[[rows1 Y1] g1]|e] eqn:Hd;
      cbn [mbind result_bind]; [|discriminate].
    intros Hrest. apply collect_record_counts in Hd as [Hr HY].
    apply IH in Hrest as [Hr' HY']. simpl. lia.
Qed.

(** C1, as the code has it: when the record-collection loop completes, the
    target values number the flattened values of the records, and the feature
    rows number, record by record, the (configuration, occupancies) pairs of
    the solver block when there is one and the flattened values when there is
    none.  The two counts agree when every solver block has as many pairs as
    its record has values, in particular when no record has a solver block.
    A record with a solver block is collected without any check of its
    length against the values: the loop step succeeds whenever the
    condition keys resolve. *)
Theorem collect_row_counts (transform : Q -> Q) (phase : string)
  (data : list Dataset) (g g' : Generator)
  (rows : list (list (sf_key * Q))) (Y : list Q) :
  run_collect transform phase g data = Ok (rows, Y, g') ->
  length Y = sum_list (map target_values data)
  /\ length rows = sum_list (map feature_rows data)
  /\ (Forall (fun d => feature_rows d = target_values d) data ->
      length rows = length Y)
  /\ (Forall (fun d => d_solver d = None) data -> length rows = length Y)
  /\ (forall d acc,
        is_Some (d_solver d) -> is_Ok (conditions_list getattr_v d) ->
        is_Ok (collect_record getattr_v site_fraction_generator transform phase acc d)).
Proof.
  intros Hrun. apply collect_from_counts in Hrun as [Hr HY]. simpl in *.
  assert (Heq : Forall (fun d => feature_rows d = target_values d) data ->
                length rows = length Y).
  { intros Hall. rewrite Hr, HY. f_equal. clear -Hall.
    induction Hall as [|d data' Hd _ IH]; simpl; congruence. }
  split; [done|]. split; [done|]. split; [done|]. split.
  - intros Hnone. apply Heq. eapply Forall_impl; [exact Hnone|].
    intros d Hd. unfold feature_rows, target_values. by rewrite Hd.
  - intros d [[sfs Y0] g0] [solver Hs] [cl Hcl].
    unfold collect_record. rewrite Hcl, Hs. simpl. eexists. reflexivity.
Qed.

End FitProperties.

(** C1 on a record whose solver block lists two configurations for a single
    value: the loop returns two feature rows and one target value, and
    raises nothing. *)
Lemma collect_misaligned_counterexample :
  exists rows Y,
    Fit.collect Example.getattr_v Example.site_fraction_generator
      Fit.q_transform "BCC" tt [Example.record_mismatched] = Ok (rows, Y, tt)
    /\ length rows = 2%nat /\ length Y = 1%nat
    /\ length rows ≠ length Y.
Proof.
  do 2 eexists. split; [vm_compute; reflexivity|].
  split; [reflexivity|]. split; [reflexivity|]. simpl. lia.
Qed.

(** *** The fitted model and the symbol table *)

Section FitResultProperties.

Import Fit Merge.

Variable lstsq : list (list Q) -> list Q -> result (list Q).
Variable np_log : Q -> Q.
Variable getattr_v : string -> result StateVariable.
Context {Generator : Type}.
Variable site_fraction_generator :
  Generator -> list string -> list (StateVariable * Q) ->
  result (list (sf_key * Q) * Generator).
Variable generate_multiplier : MobilityTerm -> list (sf_key * Q) -> result Q.
Variable _vname : nat -> string.
Context {Database : Type}.
Variable find_last_variable : Database -> nat.

Local Abbreviation run_fit :=
  (fit lstsq np_log getattr_v site_fraction_generator generate_multiplier _vname
     find_last_variable).


Lemma merged_model_expr (cs : list contribution) (f : MobilityTerm) :
  f ∈ merged_model cs -> expr f = merged_expr (term_key f) cs.
Proof.
  unfold merged_model. intros (key & -> & _)%list_elem_of_fmap.
  by rewrite term_key_merged_term.
Qed.




(** A run of [fit] that returns has selected the best model and fit of each
    pass, and is their accumulation closed over temperature. *)
Lemma fit_selected (datasets : list Dataset) (database : Database)
  (components : list string) (phase diffusing_species : string)
  (Q_test_models D0_test_models : list (list MobilityTerm))
  (g g' : Generator) (p : Q)
  (model : list MobilityTerm) (symbols : list (string * Expr)) :
  run_fit datasets database components phase diffusing_species
    Q_test_models D0_test_models g p = Ok (model, symbols, g') ->
  exists best_q fit_q best_d fit_d,
    best_of_passes lstsq np_log getattr_v site_fraction_generator
      generate_multiplier datasets components phase diffusing_species
      Q_test_models D0_test_models g p
    = Ok (best_q, fit_q, best_d, fit_d, g')
    /\ let cs :=
         number_from _vname (find_last_variable database)
           (flat_selection [(EConst 1, zip best_q fit_q);
                            (ETemperature, zip best_d fit_d)]) in
       model = map close_over_temperature (merged_model cs)
       /\ symbols = register [] cs.
Proof.
  unfold fit, best_of_passes. cbn [fit_passes]. unfold fit_pass.
  destruct (collect _ _ q_transform _ _ _) as [[[sfs1 Y1] g1]|e];
    cbn [mbind result_bind]; [|discriminate].
  destruct (select_best _ _ _ Q_test_models _ _ _) as [[bq fq]|e];
    cbn [mbind result_bind]; [|discriminate].
  destruct (accumulate _ (EConst 1) _ _) as [acc1|e] eqn:Hacc1;
    cbn [mbind result_bind]; [|discriminate].
  destruct (collect _ _ (d0_transform np_log) _ _ _) as [[[sfs2 Y2] g2]|e];
    cbn [mbind result_bind]; [|discriminate].
  destruct (select_best _ _ _ D0_test_models _ _ _) as [[bd fd]|e];
    cbn [mbind result_bind]; [|discriminate].
  destruct (accumulate _ ETemperature _ _) as [acc2|e] eqn:Hacc2;
    cbn [mbind result_bind]; [|discriminate].
  destruct acc2 as [[model2 symbols2] v2]. intros [= <- <- <-].
  exists bq, fq, bd, fd. split; [done|].
  pose proof (accumulate_passes_merged _vname
                [(EConst 1, zip bq fq); (ETemperature, zip bd fd)] [] []
                (find_last_variable database)) as Hrun.
  change (merged_model []) with (@nil MobilityTerm) in Hrun.
  cbn [accumulate_passes] in Hrun. rewrite Hacc1 in Hrun.
  cbn [mbind result_bind] in Hrun. rewrite Hacc2 in Hrun.
  cbn [mbind result_bind] in Hrun. cbv zeta in Hrun.
  injection Hrun as -> -> _. done.
Qed.

(** C9: with symbol names that differ for different indices, the symbol
    table [fit] returns binds every minted symbol to
    [Piecewise((coef, And(1.0 <= T, T < 10000)), (0, True))], [coef] its
    fitted coefficient: the coefficient for temperatures in the window, zero
    outside.  The model returned holds every accumulated term with its total
    expression wrapped in [Piecewise((expr, And(1.0 <= T, T < 6000)), (0, True))]:
    the total inside the window, zero outside. *)
Theorem fit_guards_symbols_and_terms
  (datasets : list Dataset) (database : Database) (components : list string)
  (phase diffusing_species : string)
  (Q_test_models D0_test_models : list (list MobilityTerm))
  (g g' : Generator) (p : Q)
  (model : list MobilityTerm) (symbols : list (string * Expr)) :
  Inj (=) (=) _vname ->
  run_fit datasets database components phase diffusing_species
    Q_test_models D0_test_models g p = Ok (model, symbols, g') ->
  exists best_q fit_q best_d fit_d,
    best_q ∈ Q_test_models /\ best_d ∈ D0_test_models
    /\ (exists X Y aicc,
          LeastSquares.least_squares_fit lstsq np_log X Y p = Ok (fit_q, aicc))
    /\ (exists X Y aicc,
          LeastSquares.least_squares_fit lstsq np_log X Y p = Ok (fit_d, aicc))
    /\ let cs :=
         number_from _vname (find_last_variable database)
           (flat_selection [(EConst 1, zip best_q fit_q);
                            (ETemperature, zip best_d fit_d)]) in
       symbols = symbol_table cs
       /\ (forall c, c ∈ cs ->
             PyDict.get symbols (c_name c)
             = Some (EPiecewise (EConst (c_coef c)) 1 10000)
             /\ forall temp,
                  symbol_env symbols temp (c_name c)
                  = if Qle_bool 1 temp && negb (Qle_bool 10000 temp)
                    then c_coef c else 0)
       /\ model = map close_over_temperature (merged_model cs)
       /\ (forall f, f ∈ model ->
             expr f = EPiecewise (merged_expr (term_key f) cs) 1 6000
             /\ forall env temp,
                  eval env temp (expr f)
                  = if Qle_bool 1 temp && negb (Qle_bool 6000 temp)
                    then eval env temp (merged_expr (term_key f) cs) else 0).
Proof.
  intros Hinj Hfit.
  apply fit_Ok in Hfit
    as (best_q & fit_q & best_d & fit_d & Hq & Hd & Hfq & Hfd & Hmodel & Hsymbols).
  exists best_q, fit_q, best_d, fit_d.
  split; [done|]. split; [done|]. split; [done|]. split; [done|].
  cbv zeta. rewrite register_number_from in Hsymbols by done.
  split; [done|]. split; [|split; [done|]].
  - intros c Hc.
    assert (Hget : PyDict.get symbols (c_name c)
                   = Some (EPiecewise (EConst (c_coef c)) 1 10000)).
    { rewrite Hsymbols. apply get_symbol_table; [by apply NoDup_names | done]. }
    split; [done|]. intros temp. unfold symbol_env. by rewrite Hget.
  - intros f. rewrite Hmodel.
    intros (f0 & -> & Hf0)%list_elem_of_fmap.
    assert (Hexpr : expr (close_over_temperature f0)
                    = EPiecewise (merged_expr (term_key (close_over_temperature f0))
                                    (number_from _vname (find_last_variable database)
                                       (flat_selection
                                          [(EConst 1, zip best_q fit_q);
                                           (ETemperature, zip best_d fit_d)])))
                        1 6000).
    { change (expr (close_over_temperature f0)) with (EPiecewise (expr f0) 1 6000).
      change (term_key (close_over_temperature f0)) with (term_key f0).
      by rewrite (merged_model_expr _ _ Hf0). }
    split; [done|]. intros env temp. by rewrite Hexpr.
Qed.


End FitResultProperties.

(** *** The names of the symbols *)

Section SymbolNameProperties.

Import Fit Merge.

Variable lstsq : list (list Q) -> list Q -> result (list Q).
Variable np_log : Q -> Q.
Variable getattr_v : string -> result StateVariable.
Context {Generator : Type}.
Variable site_fraction_generator :
  Generator -> list string -> list (StateVariable * Q) ->
  result (list (sf_key * Q) * Generator).
Variable generate_multiplier : MobilityTerm -> list (sf_key * Q) -> result Q.
Variable _vname : nat -> string.

(** Every coefficient index of a database lies below the index it gives. *)
Lemma find_last_variable_above (database : gset nat) (i : nat) :
  i ∈ database -> (i < Utils.find_last_variable database)%nat.
Proof.
  unfold Utils.find_last_variable, set_fold. simpl.
  intros Hin%elem_of_elements.
  induction (elements database) as [|j l IH]; [by apply elem_of_nil in Hin|].
  simpl. apply elem_of_cons in Hin as [->|Hin]; [lia|].
  specialize (IH Hin). lia.
Qed.

(** No index from the one the database gives onwards names a coefficient
    it holds. *)
Lemma coefficient_names_fresh (database : gset nat) (i : nat) :
  Inj (=) (=) _vname ->
  (Utils.find_last_variable database <= i)%nat ->
  _vname i ∉ Utils.coefficient_names _vname database.
Proof.
  intros Hinj Hi (j & Heq & Hj)%elem_of_map.
  apply Hinj in Heq as <-. apply find_last_variable_above in Hj. lia.
Qed.

(** C6: with symbol names that differ for different indices and a database
    that gives the index after its last coefficient, a run of [fit] that
    returns has put into the symbol table exactly the names of the indices
    [find_last_variable(database)], the next one, and so on, one for each
    (term, coefficient) pair of the best model and fit the two passes
    selected and in the order they were minted.  No name occurs twice, every
    coefficient index of the database lies below the first one minted and
    no name is that of a coefficient the database holds.  The accumulation
    loops of any passes, run from any index, name one symbol per pair and
    move the index on by one each time. *)
Theorem fit_symbol_names_unique
  (datasets : list Dataset) (database : gset nat) (components : list string)
  (phase diffusing_species : string)
  (Q_test_models D0_test_models : list (list MobilityTerm))
  (g g' : Generator) (p : Q)
  (model : list MobilityTerm) (symbols : list (string * Expr)) :
  Inj (=) (=) _vname ->
  fit lstsq np_log getattr_v site_fraction_generator generate_multiplier _vname
    Utils.find_last_variable datasets database components phase
    diffusing_species Q_test_models D0_test_models g p
  = Ok (model, symbols, g') ->
  (exists (best_q : list MobilityTerm) (fit_q : list Q)
          (best_d : list MobilityTerm) (fit_d : list Q),
      best_of_passes lstsq np_log getattr_v site_fraction_generator
        generate_multiplier datasets components phase diffusing_species
        Q_test_models D0_test_models g p
      = Ok (best_q, fit_q, best_d, fit_d, g')
      /\ let first := Utils.find_last_variable database in
         let minted := (length (zip best_q fit_q) + length (zip best_d fit_d))%nat in
         PyDict.keys symbols = map _vname (seq first minted)
         /\ length symbols = minted
         /\ NoDup (PyDict.keys symbols)
         /\ (forall i, i ∈ database -> (i < first)%nat)
         /\ forall name,
              name ∈ PyDict.keys symbols ->
              name ∉ Utils.coefficient_names _vname database)
  /\ forall v0 sels model' symbols' v',
       accumulate_passes _vname ([], [], v0) sels = Ok (model', symbols', v') ->
       PyDict.keys symbols' = map _vname (seq v0 (length (flat_selection sels)))
       /\ length symbols' = length (flat_selection sels)
       /\ v' = (v0 + length (flat_selection sels))%nat.
Proof.
  intros Hinj Hfit.
  assert (Hkeys : forall v l,
    PyDict.keys (register [] (number_from _vname v l))
    = map _vname (seq v (length l))).
  { intros v l. rewrite register_number_from by done.
    unfold PyDict.keys, symbol_table. rewrite map_map. simpl.
    change (map (fun c => c_name c) ?l') with (map c_name l').
    apply names_number_from. }
  split.
  - apply fit_selected in Hfit
      as (best_q & fit_q & best_d & fit_d & Hsel & _ & Hsymbols).
    exists best_q, fit_q, best_d, fit_d. split; [done|]. cbv zeta.
    assert (Hk : PyDict.keys symbols
                 = map _vname (seq (Utils.find_last_variable database)
                     (length (zip best_q fit_q) + length (zip best_d fit_d)))).
    { rewrite Hsymbols, Hkeys. do 2 f_equal.
      unfold flat_selection. simpl. by rewrite length_app, app_nil_r, !length_map. }
    split; [done|]. split.
    { rewrite <- (length_map fst symbols). fold (PyDict.keys symbols).
      by rewrite Hk, length_map, length_seq. }
    split.
    { rewrite Hk. apply NoDup_fmap_2; [done | apply NoDup_seq]. }
    split; [apply find_last_variable_above|].
    intros name. rewrite Hk.
    intros (i & -> & Hi)%list_elem_of_fmap. apply elem_of_seq in Hi.
    apply coefficient_names_fresh; [done | lia].
  - intros v0 sels model' symbols' v' Hacc.
    pose proof (accumulate_passes_merged _vname sels [] [] v0) as Hrun.
    change (merged_model []) with (@nil MobilityTerm) in Hrun.
    cbv zeta in Hrun. rewrite Hacc in Hrun. injection Hrun as _ -> ->.
    rewrite length_number_from. split; [apply Hkeys|]. split; [|done].
    rewrite <- (length_map fst).
    change (map fst ?d) with (PyDict.keys d).
    by rewrite Hkeys, length_map, length_seq.
Qed.

End SymbolNameProperties.

(** ** The properties on the small run *)

Section Witnesses.

Import Fit Merge.

Lemma example_vname_inj : Inj (=) (=) Example.vname.
Proof.
  intros i j Heq. unfold Example.vname in Heq. simpl in Heq.
  injection Heq as Heq. by apply (inj pretty).
Qed.

Lemma collect_row_counts_witness :
  exists rows Y,
    collect Example.getattr_v Example.site_fraction_generator q_transform "BCC" tt
      [Example.record_Q; Example.record_D0] = Ok (rows, Y, tt)
    /\ length Y = 2%nat /\ length rows = 2%nat.
Proof.
  destruct (collect Example.getattr_v Example.site_fraction_generator q_transform
              "BCC" tt [Example.record_Q; Example.record_D0])
    as [[[rows Y] []]|e] eqn:Hrun; [|vm_compute in Hrun; discriminate].
  exists rows, Y. split; [reflexivity|].
  destruct (collect_row_counts Example.getattr_v Example.site_fraction_generator
              q_transform "BCC" [Example.record_Q; Example.record_D0] tt tt
              rows Y Hrun) as (HY & Hrows & _).
  split; [exact HY | exact Hrows].
Defined.

Lemma generate_phase_records_cached_witness :
  let Model_new := fun (_ : unit) (comps : list string) (_ : string) => comps in
  let PhaseRecordFactory :=
    fun (_ : unit) (comps : list string) (_ : list StateVariable)
        (_ : list (string * list string)) => comps in
  let model_constituents := fun comps : list string => [list_to_set comps : gset string] in
  let phase_constituents := fun (_ : unit) (_ : string) => [({["A"; "B"; "VA"]} : gset string)]%string in
  let self := EquilibriumSiteFractionGenerator.init phase_constituents tt "BCC" in
  let first :=
    EquilibriumSiteFractionGenerator._generate_phase_records Model_new PhaseRecordFactory
      model_constituents self ["B"; "A"; "A"]%string in
  let second :=
    EquilibriumSiteFractionGenerator._generate_phase_records Model_new PhaseRecordFactory
      model_constituents first.1 ["A"; "B"]%string in
  second.2 = [] /\ second.1 = first.1.
Proof.
  intros Model_new PhaseRecordFactory model_constituents phase_constituents self
    first second.
  assert (Hc : EquilibriumSiteFractionGenerator.canonical ["B"; "A"; "A"]%string
               = EquilibriumSiteFractionGenerator.canonical ["A"; "B"]%string)
    by (vm_compute; reflexivity).
  pose proof (generate_phase_records_cached Model_new PhaseRecordFactory
                model_constituents
                (fun _ _ _ _ _ _ => Raise EquilibriumError)
                self _ _ Hc) as (H2 & H1 & _).
  split; [exact H2 | exact H1].
Defined.

Lemma call_mutates_conditions_witness :
  let Model_new := fun (_ : unit) (comps : list string) (_ : string) => comps in
  let PhaseRecordFactory :=
    fun (_ : unit) (comps : list string) (_ : list StateVariable)
        (_ : list (string * list string)) => comps in
  let model_constituents := fun comps : list string => [list_to_set comps : gset string] in
  let phase_constituents := fun (_ : unit) (_ : string) => [({["A"; "B"; "VA"]} : gset string)]%string in
  let local_equilibrium :=
    fun (_ : unit) (_ _ : list string) (_ : list (StateVariable * Q))
        (_ : list (string * list string)) (_ : list string) =>
      Ok [[0; 1; 101325; 1000; 7 # 10; 3 # 10; 1]] in
  let after :=
    EquilibriumSiteFractionGenerator.conditions_after
      (EquilibriumSiteFractionGenerator.call Model_new PhaseRecordFactory model_constituents
         local_equilibrium (EquilibriumSiteFractionGenerator.init phase_constituents tt "BCC")
         ["A"; "B"; "VA"]%string [(T, 1000); (N, 5); (X "B", 3 # 10)]) in
  PyDict.get after N = Some 1 /\ PyDict.get after GE = Some 0
  /\ PyDict.get after T = Some 1000.
Proof.
  intros Model_new PhaseRecordFactory model_constituents phase_constituents
    local_equilibrium after.
  pose proof (call_mutates_conditions Model_new PhaseRecordFactory
                model_constituents phase_constituents local_equilibrium
                (EquilibriumSiteFractionGenerator.init phase_constituents tt "BCC")
                ["A"; "B"; "VA"]%string [(T, 1000); (N, 5); (X "B", 3 # 10)])
    as (Hset & Hkeep & _).
  split; [apply Hset; reflexivity|]. split; [apply Hset; reflexivity|].
  unfold after. rewrite Hkeep; reflexivity.
Defined.

Lemma direct_generator_composition_witness :
  SiteFractionGenerator.composition_of ["A"; "B"; "VA"]%string
    ([(T, 1000)] ++ [(X "B", 3 # 10)]) !! "B"%string = Some (3 # 10)
  /\ SiteFractionGenerator.composition_of ["A"; "B"; "VA"]%string
       ([(T, 1000)] ++ [(X "B", 3 # 10)]) !! "A"%string = Some (7 # 10).
Proof.
  pose proof (direct_generator_composition (fun composition => composition))
    as (_ & _ & Hstep & _).
  destruct (Hstep ["A"; "B"; "VA"]%string [(T, 1000)] "B"%string (3 # 10))
    as [HB Hother].
  split; [exact HB|].
  rewrite (Hother "A"%string); [reflexivity | discriminate].
Defined.


Lemma fit_symbol_names_unique_witness :
  exists model symbols,
    run_on_database = Ok (model, symbols, tt)
    /\ PyDict.keys symbols = [Example.vname 2; Example.vname 3]
    /\ NoDup (PyDict.keys symbols)
    /\ forall name, name ∈ PyDict.keys symbols ->
         name ∉ Utils.coefficient_names Example.vname {[0%nat; 1%nat]}.
Proof.
  destruct run_on_database as [[[model symbols] []]|e] eqn:Hrun;
    [|vm_compute in Hrun; discriminate].
  exists model, symbols. split; [reflexivity|].
  destruct (fit_symbol_names_unique Example.lstsq Example.np_log
              Example.getattr_v Example.site_fraction_generator
              Example.generate_multiplier Example.vname
              [Example.record_Q; Example.record_D0] {[0%nat; 1%nat]}
              ["A"%string] "BCC"%string "A"%string [[Example.term_A]]
              [[Example.term_A]] tt tt 1 model symbols
              example_vname_inj Hrun)
    as [(bq & fq & bd & fd & Hsel & Hkeys & _ & Hnd & _ & Hfresh) _].
  vm_compute in Hsel. injection Hsel as <- <- <- <-.
  split; [|split; [exact Hnd | exact Hfresh]].
  rewrite Hkeys. vm_compute. reflexivity.
Defined.

Lemma fit_guards_symbols_and_terms_witness :
  exists model symbols,
    Example.run = Ok (model, symbols, tt)
    /\ forall f, f ∈ model -> exists e, expr f = EPiecewise e 1 6000.
Proof.
  destruct Example.run as [[[model symbols] []]|e] eqn:Hrun;
    [|vm_compute in Hrun; discriminate].
  exists model, symbols. split; [reflexivity|].
  destruct (fit_guards_symbols_and_terms Example.lstsq Example.np_log
              Example.getattr_v Example.site_fraction_generator
              Example.generate_multiplier Example.vname
              Example.find_last_variable
              [Example.record_Q; Example.record_D0] Example.database
              ["A"%string] "BCC"%string "A"%string [[Example.term_A]]
              [[Example.term_A]] tt tt 1 model symbols
              example_vname_inj Hrun)
    as (bq & fq & bd & fd & _ & _ & _ & _ & _ & _ & _ & Hterms).
  intros f Hf. destruct (Hterms f Hf) as [He _]. eauto.
Defined.

End Witnesses.

(** * Further properties *)

(** ** least_squares_fit: residuals and selection *)

Section RegressionProperties.

Import LeastSquares Fit.

Variable lstsq : list (list Q) -> list Q -> result (list Q).
Variable np_log : Q -> Q.

Lemma least_squares_fit_unfold (A : list (list Q)) (b : list Q) (p : Q) :
  least_squares_fit lstsq np_log A b p
  = match lstsq A b with
    | Raise e => Raise e
    | Ok x =>
        match A with
        | [] => Raise IndexError
        | row0 :: _ =>
            Ok (x, 2 * (p * Qnat (length row0))
                   + Qnat (length A)
                     * np_log (residual_sum_of_squares A x b / Qnat (length A))
                   + (2 * (p * Qnat (length row0)) ^ 2 + 2 * (p * Qnat (length row0)))
                     / selected_denominator (length A) (p * Qnat (length row0)))
        end
    end.
Proof.
  unfold least_squares_fit. destruct (lstsq A b) as [x|e]; [|reflexivity].
  destruct A as [|row0 A']; [reflexivity|].
  cbn [mbind result_bind]. by rewrite aicc_correction_selected.
Qed.

Lemma np_sum_from (l : list Q) (acc : Q) :
  fold_left Qplus l acc == acc + np_sum l.
Proof.
  unfold np_sum. revert acc. induction l as [|x l IH]; intros acc; simpl.
  - ring.
  - rewrite IH, (IH (0 + x)). ring.
Qed.

Lemma np_sum_cons (x : Q) (l : list Q) : np_sum (x :: l) == x + np_sum l.
Proof. unfold np_sum at 1. simpl. rewrite np_sum_from. ring. Qed.

Lemma np_sum_nonneg (l : list Q) : Forall (fun x => 0 <= x) l -> 0 <= np_sum l.
Proof.
  induction 1 as [|x l Hx _ IH].
  - unfold np_sum. simpl. lra.
  - rewrite np_sum_cons. lra.
Qed.

(** X2: the residual sum of squares is never negative, whatever
    coefficients and targets it is computed for. *)
Theorem residual_sum_of_squares_nonneg (A : list (list Q)) (x b : list Q) :
  0 <= residual_sum_of_squares A x b.
Proof.
  unfold residual_sum_of_squares. apply np_sum_nonneg.
  apply Forall_fmap, Forall_forall. intros d _. simpl.
  change (d ^ 2) with (d * d). nra.
Qed.

(** [np.argmin] on a list that starts with the entries [pre] already seen. *)
Lemma argmin_from_least (l pre : list Q) (best_index : nat) (best : Q) :
  pre !! best_index = Some best ->
  (forall j y, pre !! j = Some y -> best <= y) ->
  (forall j y, (j < best_index)%nat -> pre !! j = Some y -> best < y) ->
  exists m,
    (pre ++ l) !! argmin_from best_index best (length pre) l = Some m
    /\ (forall j y, (pre ++ l) !! j = Some y -> m <= y)
    /\ (forall j y, (j < argmin_from best_index best (length pre) l)%nat ->
          (pre ++ l) !! j = Some y -> m < y).
Proof.
  revert pre best_index best. induction l as [|x l IH];
    intros pre best_index best Hbest Hle Hlt; simpl.
  - rewrite app_nil_r. eauto.
  - replace (pre ++ x :: l) with ((pre ++ [x]) ++ l) by (by rewrite <- app_assoc).
    replace (S (length pre)) with (length (pre ++ [x]))
      by (rewrite length_app; simpl; lia).
    destruct (Qle_bool best x) eqn:E.
    + apply Qle_bool_iff in E. apply IH.
      * by apply lookup_app_l_Some.
      * intros j y [Hj|[_ Hj]]%lookup_app_Some; [by eapply Hle|].
        apply list_lookup_singleton_Some in Hj as [_ <-]. done.
      * intros j y Hlt' [Hj|[Hge _]]%lookup_app_Some; [by eapply Hlt|].
        apply lookup_lt_Some in Hbest. lia.
    + assert (Hx : x < best).
      { apply Qnot_le_lt. intros H. apply Qle_bool_iff in H. congruence. }
      apply IH.
      * rewrite lookup_app_r by lia. by rewrite Nat.sub_diag.
      * intros j y [Hj|[_ Hj]]%lookup_app_Some.
        -- specialize (Hle _ _ Hj). lra.
        -- apply list_lookup_singleton_Some in Hj as [_ <-]. lra.
      * intros j y Hlt' Hj. rewrite lookup_app_l in Hj by done.
        specialize (Hle _ _ Hj). lra.
Qed.

Lemma np_argmin_least (l : list Q) (i : nat) :
  np_argmin l = Ok i ->
  exists m,
    l !! i = Some m
    /\ (forall j y, l !! j = Some y -> m <= y)
    /\ (forall j y, (j < i)%nat -> l !! j = Some y -> m < y).
Proof.
  destruct l as [|x l]; simpl; [discriminate|]. intros [= <-].
  apply (argmin_from_least l [x] O x).
  - done.
  - intros [|j] y [= <-]. lra.
  - intros j y Hj. lia.
Qed.

End RegressionProperties.

Section SelectionProperties.

Import LeastSquares Fit.

Variable lstsq : list (list Q) -> list Q -> result (list Q).
Variable np_log : Q -> Q.
Variable getattr_v : string -> result StateVariable.
Context {Generator : Type}.
Variable site_fraction_generator :
  Generator -> list string -> list (StateVariable * Q) ->
  result (list (sf_key * Q) * Generator).
Variable generate_multiplier : MobilityTerm -> list (sf_key * Q) -> result Q.
Variable _vname : nat -> string.
Context {Database : Type}.
Variable find_last_variable : Database -> nat.

(** X3: the model [fit] keeps for a pass is a candidate of least AICC, and
    the first such in the list: every candidate was fitted, none scores
    below the one kept, and every candidate listed before it scores strictly
    above. *)
Theorem select_best_least_aicc (test_models : list (list MobilityTerm))
  (site_fractions : list (list (sf_key * Q))) (Y : list Q) (p : Q)
  (best_model : list MobilityTerm) (best_fit : list Q) :
  let score := fun mob_model =>
    X ← design_matrix generate_multiplier mob_model site_fractions;
    least_squares_fit lstsq np_log X Y p in
  select_best lstsq np_log generate_multiplier test_models site_fractions Y p
  = Ok (best_model, best_fit) ->
  exists index aicc,
    test_models !! index = Some best_model
    /\ score best_model = Ok (best_fit, aicc)
    /\ forall j mob_model,
         test_models !! j = Some mob_model ->
         exists terms aicc_j,
           score mob_model = Ok (terms, aicc_j)
           /\ aicc <= aicc_j
           /\ ((j < index)%nat -> aicc < aicc_j).
Proof.
  intros score. unfold select_best. fold score.
  destruct (mapM score test_models) as [fits|e] eqn:Hfits; simpl; [|discriminate].
  destruct (np_argmin fits.*2) as [index|e] eqn:Hmin; simpl; [|discriminate].
  destruct (list_get test_models index) as [bm|e] eqn:Hbm; simpl; [|discriminate].
  destruct (list_get fits.*1 index) as [bf|e] eqn:Hbf; simpl; [|discriminate].
  intros [= <- <-].
  apply list_get_Ok in Hbm. apply list_get_Ok in Hbf.
  apply mapM_Ok in Hfits.
  apply np_argmin_least in Hmin as (aicc & Haicc & Hle & Hlt).
  rewrite list_lookup_fmap in Hbf. rewrite list_lookup_fmap in Haicc.
  destruct (fits !! index) as [[bf' aicc']|] eqn:Hfit; [|done].
  injection Hbf as ->. injection Haicc as ->.
  exists index, aicc. split; [done|]. split.
  { exact (Forall2_lookup_lr _ _ _ _ _ _ Hfits Hbm Hfit). }
  intros j mob_model Hj.
  destruct (Forall2_lookup_l _ _ _ _ _ Hfits Hj) as ([terms aicc_j] & Hfj & Hscore).
  exists terms, aicc_j. split; [done|].
  assert (Hj2 : fits.*2 !! j = Some aicc_j) by (by rewrite list_lookup_fmap, Hfj).
  split; [by eapply Hle | intros Hlt'; by eapply Hlt].
Qed.

End SelectionProperties.

(** ** fit: the records it reads *)

Section RecordProperties.

Import LeastSquares Fit.

Variable lstsq : list (list Q) -> list Q -> result (list Q).
Variable np_log : Q -> Q.
Variable getattr_v : string -> result StateVariable.
Context {Generator : Type}.
Variable site_fraction_generator :
  Generator -> list string -> list (StateVariable * Q) ->
  result (list (sf_key * Q) * Generator).
Variable generate_multiplier : MobilityTerm -> list (sf_key * Q) -> result Q.
Variable _vname : nat -> string.
Context {Database : Type}.
Variable find_last_variable : Database -> nat.

Local Abbreviation run_fit :=
  (fit lstsq np_log getattr_v site_fraction_generator generate_multiplier _vname
     find_last_variable).

Lemma fit_same_matches (datasets datasets' : list Dataset) (database : Database)
  (components : list string) (phase diffusing_species : string)
  (Q_test_models D0_test_models : list (list MobilityTerm)) (g : Generator) (p : Q) :
  (forall marker comps,
      filter (fun d => query marker comps phase diffusing_species d) datasets
      = filter (fun d => query marker comps phase diffusing_species d) datasets') ->
  run_fit datasets database components phase diffusing_species
    Q_test_models D0_test_models g p
  = run_fit datasets' database components phase diffusing_species
      Q_test_models D0_test_models g p.
Proof.
  intros Hsame.
  assert (Hpass : forall st data_val comps,
    fit_pass lstsq np_log getattr_v site_fraction_generator generate_multiplier
      _vname datasets comps phase diffusing_species p st data_val
    = fit_pass lstsq np_log getattr_v site_fraction_generator generate_multiplier
        _vname datasets' comps phase diffusing_species p st data_val).
  { intros [acc g0] [[[marker transform] multiplier] test_models] comps.
    unfold fit_pass. by rewrite Hsame. }
  unfold fit. cbn [fit_passes]. rewrite Hpass.
  destruct (fit_pass _ _ _ _ _ _ datasets' _ _ _ _ _ _) as [st1|e]; [|reflexivity].
  cbn [mbind result_bind]. by rewrite Hpass.
Qed.

Lemma query_other_phase (marker : string) (comps : gset string)
  (phase diffusing_species : string) (d : Dataset) :
  d_phases d ≠ [phase] -> query marker comps phase diffusing_species d = false.
Proof.
  intros Hne. unfold query.
  destruct (d_phases d) as [|x0 [|x1 rest]]; simpl.
  - by rewrite andb_false_r.
  - destruct (String.eqb_spec x0 phase) as [->|Hx]; [done|].
    by rewrite andb_false_r.
  - by rewrite andb_false_r.
Qed.

Lemma query_other_species (marker : string) (comps : gset string)
  (phase diffusing_species : string) (d : Dataset) :
  endswith (d_output d) diffusing_species = false ->
  query marker comps phase diffusing_species d = false.
Proof. intros He. unfold query. rewrite He. by rewrite !andb_false_r. Qed.

(** X5: a record that is not of exactly the fitted phase, or whose output
    tag does not end with the diffusing species, has no effect on [fit]:
    with it or without it in the datasets, [fit] returns the same result or
    raises the same error. *)
Theorem fit_ignores_other_records (before after : list Dataset) (d : Dataset)
  (database : Database) (components : list string)
  (phase diffusing_species : string)
  (Q_test_models D0_test_models : list (list MobilityTerm)) (g : Generator) (p : Q) :
  d_phases d ≠ [phase] \/ endswith (d_output d) diffusing_species = false ->
  run_fit (before ++ d :: after) database components phase diffusing_species
    Q_test_models D0_test_models g p
  = run_fit (before ++ after) database components phase diffusing_species
      Q_test_models D0_test_models g p.
Proof.
  intros Hd. apply fit_same_matches. intros marker comps.
  rewrite !filter_app, filter_cons.
  assert (Hq : query marker comps phase diffusing_species d = false)
    by (destruct Hd; [by apply query_other_phase | by apply query_other_species]).
  rewrite decide_False; [done|]. rewrite Hq. simpl. tauto.
Qed.

Lemma select_best_no_rows (test_models : list (list MobilityTerm)) (Y : list Q) (p : Q) :
  exists e,
    select_best lstsq np_log generate_multiplier test_models [] Y p = Raise e.
Proof.
  unfold select_best. destruct test_models as [|mob_model rest]; simpl.
  - by exists ValueError.
  - rewrite least_squares_fit_unfold.
    destruct (lstsq [] Y) as [x|e]; simpl; eauto.
Qed.

Lemma fit_pass_no_data (datasets : list Dataset) (comps : gset string)
  (phase diffusing_species : string) (p : Q) (st : accumulator * Generator)
  (marker : string) (transform : Q -> Q) (multiplier : Expr)
  (test_models : list (list MobilityTerm)) :
  filter (fun d => query marker comps phase diffusing_species d) datasets = [] ->
  exists e,
    fit_pass lstsq np_log getattr_v site_fraction_generator generate_multiplier
      _vname datasets comps phase diffusing_species p st
      (marker, transform, multiplier, test_models) = Raise e.
Proof.
  intros Hnone. destruct st as [acc g]. unfold fit_pass. rewrite Hnone.
  cbn [collect collect_from mbind result_bind].
  destruct (select_best_no_rows test_models [] p) as [e ->]. eauto.
Qed.

(** X6: [fit] needs data for both quantities.  When no record of the
    datasets passes the [TRACER_Q] query, or none passes the [TRACER_D0]
    query, [fit] returns nothing: it raises, whatever the candidate models. *)
Theorem fit_without_data_raises (datasets : list Dataset) (database : Database)
  (components : list string) (phase diffusing_species : string)
  (Q_test_models D0_test_models : list (list MobilityTerm)) (g : Generator) (p : Q) :
  let comps : gset string := list_to_set components ∪ list_to_set ["VA"%string] in
  filter (fun d => query "TRACER_Q" comps phase diffusing_species d) datasets = []
  \/ filter (fun d => query "TRACER_D0" comps phase diffusing_species d) datasets = [] ->
  exists e,
    run_fit datasets database components phase diffusing_species
      Q_test_models D0_test_models g p = Raise e.
Proof.
  intros comps Hnone. unfold fit. cbn [fit_passes]. fold comps.
  destruct Hnone as [HQ|HD].
  - edestruct (fit_pass_no_data datasets comps phase diffusing_species p) as [e ->];
      [exact HQ|]. eauto.
  - destruct (fit_pass _ _ _ _ _ _ _ _ _ _ _ _ _) as [st1|e]; [|eauto].
    cbn [mbind result_bind].
    edestruct (fit_pass_no_data datasets comps phase diffusing_species p st1)
      as [e ->]; [exact HD|]. eauto.
Qed.

End RecordProperties.

(** ** fit: the record-collection loop *)

Section CollectionProperties.

Import Fit.

Variable getattr_v : string -> result StateVariable.
Context {Generator : Type}.
Variable site_fraction_generator :
  Generator -> list string -> list (StateVariable * Q) ->
  result (list (sf_key * Q) * Generator).

Local Abbreviation run_collect := (collect getattr_v site_fraction_generator).
Local Abbreviation run_record := (collect_record getattr_v site_fraction_generator).

Lemma collect_from_targets (transform : Q -> Q) (phase : string) (data : list Dataset)
  (rows rows' : list (list (sf_key * Q))) (Y Y' : list Q) (g g' : Generator) :
  collect_from getattr_v site_fraction_generator transform phase (rows, Y, g) data
  = Ok (rows', Y', g') ->
  Y' = Y ++ flat_map (fun d => map transform (flatten (d_values d))) data.
Proof.
  revert rows Y g. induction data as [|d data IH]; intros rows Y g;
    cbn [collect_from].
  - intros [= _ <- _]. simpl. by rewrite app_nil_r.
  - destruct (run_record transform phase (rows, Y, g) d)
      as [[[rows1 Y1] g1]|e] eqn:Hd; cbn [mbind result_bind]; [|discriminate].
    intros Hrest. apply IH in Hrest as ->. simpl. rewrite app_assoc. f_equal.
    unfold collect_record in Hd.
    destruct (conditions_list getattr_v d); simpl in Hd; [|discriminate].
    destruct (match d_solver d with Some _ => _ | None => _ end) as [[new g2]|e];
      simpl in Hd; [|discriminate].
    by injection Hd as _ <- _.
Qed.

(** X7: when the collection loop completes, the targets are the values of
    the records in the order of the records, each record flattened in row-major
    order and passed through the transform of the pass; nothing is dropped
    or reordered. *)
Theorem collect_targets_in_order (transform : Q -> Q) (phase : string)
  (data : list Dataset) (g g' : Generator)
  (rows : list (list (sf_key * Q))) (Y : list Q) :
  run_collect transform phase g data = Ok (rows, Y, g') ->
  Y = flat_map (fun d => map transform (concat (concat (d_values d)))) data.
Proof. intros Hrun. by apply collect_from_targets in Hrun. Qed.

Lemma collect_from_solver (transform : Q -> Q) (phase : string) (data : list Dataset)
  (rows rows' : list (list (sf_key * Q))) (Y Y' : list Q) (g g' : Generator) :
  Forall (fun d => is_Some (d_solver d)) data ->
  collect_from getattr_v site_fraction_generator transform phase (rows, Y, g) data
  = Ok (rows', Y', g') ->
  g' = g
  /\ rows' = rows ++ flat_map
                (fun d => match d_solver d with
                          | Some solver => solver_site_fractions phase solver
                          | None => []
                          end) data.
Proof.
  intros Hall. revert rows Y g. induction Hall as [|d data [solver Hs] _ IH];
    intros rows Y g; cbn [collect_from].
  - intros [= <- _ <-]. simpl. by rewrite app_nil_r.
  - unfold collect_record at 1. rewrite Hs.
    destruct (conditions_list getattr_v d); cbn [mbind result_bind]; [|discriminate].
    intros Hrest. apply IH in Hrest as [-> ->]. split; [done|].
    simpl. rewrite Hs. by rewrite app_assoc.
Qed.

(** X8: records with a solver block never reach the site-fraction
    generator.  When every record carries one, a completed collection leaves
    the generator as it was and the feature rows are the site fractions read
    from the blocks, record after record. *)
Theorem collect_solver_records_bypass_generator (transform : Q -> Q)
  (phase : string) (data : list Dataset) (g g' : Generator)
  (rows : list (list (sf_key * Q))) (Y : list Q) :
  Forall (fun d => is_Some (d_solver d)) data ->
  run_collect transform phase g data = Ok (rows, Y, g') ->
  g' = g
  /\ rows = flat_map
              (fun d => match d_solver d with
                        | Some solver => solver_site_fractions phase solver
                        | None => []
                        end) data.
Proof. intros Hall Hrun. by apply (collect_from_solver _ _ _ [] _ [] _ _ _ Hall) in Hrun. Qed.

(** *** The condition grid *)

Lemma length_flat_replicate (n : nat) (x : list Q) :
  length (flat_map (fun a => replicate n a) x) = (length x * n)%nat.
Proof.
  induction x as [|a x IH]; simpl; [done|].
  by rewrite length_app, length_replicate, IH.
Qed.

Lemma length_concat_replicate (n : nat) (g : list Q) :
  length (concat (replicate n g)) = (n * length g)%nat.
Proof.
  induction n as [|n IH]; simpl; [done|]. by rewrite length_app, IH.
Qed.

Lemma meshgrid_ij_lengths (xs : list (list Q)) :
  length (meshgrid_ij xs) = length xs
  /\ Forall (fun grid => length grid = grid_points xs) (meshgrid_ij xs).
Proof.
  induction xs as [|x xs [IHn IH]]; simpl; [by split|].
  split; [by rewrite length_map, IHn|].
  constructor.
  - apply length_flat_replicate.
  - apply Forall_fmap. eapply Forall_impl; [exact IH|].
    intros grid Hg. simpl. by rewrite length_concat_replicate, Hg.
Qed.

Lemma meshgrid_lengths (xs : list (list Q)) :
  length (meshgrid xs) = length xs
  /\ Forall (fun grid => length grid = grid_points xs) (meshgrid xs).
Proof.
  unfold meshgrid. destruct xs as [|x1 [|x2 rest]];
    [apply meshgrid_ij_lengths ..|].
  pose proof (meshgrid_ij_lengths (x2 :: x1 :: rest)) as [Hn Hall].
  assert (Hswap : grid_points (x2 :: x1 :: rest) = grid_points (x1 :: x2 :: rest))
    by (simpl; lia).
  rewrite Hswap in Hall.
  destruct (meshgrid_ij (x2 :: x1 :: rest)) as [|g2 [|g1 gs]]; [done..|].
  split; [done|].
  apply Forall_cons in Hall as [H2 Hall]. apply Forall_cons in Hall as [H1 Hall].
  by repeat constructor.
Qed.

Lemma condition_axes_Ok (conditions : list (string * scalar_or_list Q))
  (conds_grid : list (list Q)) (conds_key : list StateVariable) :
  condition_axes getattr_v conditions = Ok (conds_grid, conds_key) ->
  conds_grid = map (fun cv => atleast_1d cv.2) conditions
  /\ length conds_key = length conditions.
Proof.
  revert conds_grid conds_key.
  induction conditions as [|[c val] conditions IH]; intros conds_grid conds_key; simpl.
  - by intros [= <- <-].
  - destruct (condition_key getattr_v c); simpl; [|discriminate].
    destruct (condition_axes getattr_v conditions) as [[grid keys]|e];
      simpl; [|discriminate].
    intros [= <- <-]. destruct (IH _ _ eq_refl) as [-> Hlen].
    simpl. by rewrite Hlen.
Qed.

Lemma set_entries {K V : Type} `{EqDecision K} (d : list (K * V)) (k : K) (v : V)
  (kv : K * V) :
  kv ∈ PyDict.set d k v -> kv.2 = v \/ kv ∈ d.
Proof.
  induction d as [|[k' v'] d IH]; simpl.
  - intros ->%list_elem_of_singleton. by left.
  - destruct (decide (k = k')) as [->|Hne].
    + intros [->|Hin]%elem_of_cons; [by left | right; by apply list_elem_of_further].
    + intros [->|Hin]%elem_of_cons; [right; apply list_elem_of_here|].
      destruct (IH Hin) as [?|?]; [by left | right; by apply list_elem_of_further].
Qed.

Lemma set_nonempty {K V : Type} `{EqDecision K} (d : list (K * V)) (k : K) (v : V) :
  PyDict.set d k v ≠ [].
Proof. destruct d as [|[k' v'] d]; simpl; [done|]. by destruct (decide (k = k')). Qed.

Lemma of_items_entries {K V : Type} `{EqDecision K} (items : list (K * V))
  (kv : K * V) :
  kv ∈ PyDict.of_items items -> kv.2 ∈ items.*2.
Proof.
  unfold PyDict.of_items.
  assert (Hgen : forall d : list (K * V),
    kv ∈ fold_left (fun d kv => PyDict.set d kv.1 kv.2) items d ->
    kv ∈ d \/ kv.2 ∈ items.*2).
  { induction items as [|[k v] items IH]; intros d; simpl; [by left|].
    intros [Hin|Hin]%IH.
    - apply set_entries in Hin as [->|Hin]; [right; apply list_elem_of_here | by left].
    - right. by apply list_elem_of_further. }
  intros [Hin|Hin]%Hgen; [by apply elem_of_nil in Hin | done].
Qed.

Lemma of_items_nonempty {K V : Type} `{EqDecision K} (items : list (K * V)) :
  items ≠ [] -> PyDict.of_items items ≠ [].
Proof.
  unfold PyDict.of_items.
  assert (Hgen : forall (l : list (K * V)) (d : list (K * V)), d ≠ [] ->
    fold_left (fun d kv => PyDict.set d kv.1 kv.2) l d ≠ []).
  { induction l as [|[k v] l IH]; intros d Hd; simpl; [done|].
    apply IH, set_nonempty. }
  destruct items as [|[k v] items]; [done|]. intros _. simpl.
  apply Hgen. done.
Qed.

(** Every array of [conds_list] has one entry per point of the grid. *)
Lemma conditions_list_lengths (d : Dataset) (conds_list : list (StateVariable * list Q)) :
  conditions_list getattr_v d = Ok conds_list ->
  Forall (fun kv => length kv.2 = grid_size d) conds_list
  /\ (d_conditions d ≠ [] -> conds_list ≠ []).
Proof.
  unfold conditions_list.
  destruct (condition_axes getattr_v (d_conditions d)) as [[grid keys]|e] eqn:Haxes;
    simpl; [|discriminate].
  intros [= <-]. apply condition_axes_Ok in Haxes as [-> Hkeys].
  pose proof (meshgrid_lengths (map (fun cv => atleast_1d cv.2) (d_conditions d)))
    as [Hn Hall].
  split.
  - apply Forall_forall. intros kv Hkv%of_items_entries.
    rewrite snd_zip in Hkv by (rewrite Hn, length_map; lia).
    rewrite Forall_forall in Hall. rewrite (Hall _ Hkv).
    unfold grid_size, grid_points. by rewrite foldr_fmap.
  - intros Hne. apply of_items_nonempty.
    destruct (d_conditions d) as [|cv conditions]; [done|].
    destruct keys as [|key keys]; [done|].
    destruct (meshgrid _) as [|grid grids]; [done|]. done.
Qed.

Lemma conditions_at_beyond (conds_list : list (StateVariable * list Q)) (i : nat) :
  conds_list ≠ [] ->
  Forall (fun kv => (length kv.2 <= i)%nat) conds_list ->
  conditions_at conds_list i = Raise IndexError.
Proof.
  destruct conds_list as [|[key val] rest]; [done|]. intros _ Hall.
  apply Forall_cons in Hall as [Hval _]. unfold conditions_at. cbn [mapM].
  assert (Hget : list_get val i = Raise IndexError).
  { unfold list_get. simpl in Hval. by rewrite (lookup_ge_None_2 val i Hval). }
  by rewrite Hget.
Qed.

Lemma conditions_at_within (conds_list : list (StateVariable * list Q)) (i : nat) :
  Forall (fun kv => (i < length kv.2)%nat) conds_list ->
  is_Ok (conditions_at conds_list i).
Proof.
  unfold conditions_at. induction 1 as [|[key val] rest Hval _ [r IH]]; simpl.
  - by eexists.
  - simpl in Hval.
    assert (Hget : exists x, list_get val i = Ok x).
    { unfold list_get. destruct (lookup_lt_is_Some_2 _ _ Hval) as [x ->]. eauto. }
    destruct Hget as [x ->]. simpl. rewrite IH. simpl. by eexists.
Qed.

Lemma conditions_at_raises (conds_list : list (StateVariable * list Q)) (i : nat)
  (e : exn) :
  conditions_at conds_list i = Raise e -> e = IndexError.
Proof.
  unfold conditions_at. induction conds_list as [|[key val] rest IH]; simpl;
    [discriminate|].
  destruct (list_get val i) as [x|e0] eqn:Hget; simpl.
  - destruct (mapM _ rest) as [r|e']; simpl; [discriminate|].
    intros [= <-]. by apply IH.
  - intros [= <-]. unfold list_get in Hget. destruct (val !! i); congruence.
Qed.

Lemma generated_beyond_grid (conds_list : list (StateVariable * list Q)) (n : nat)
  (components : list string) (indices : list nat) (g : Generator) :
  conds_list ≠ [] ->
  Forall (fun kv => length kv.2 = n) conds_list ->
  (exists i, i ∈ indices /\ (n <= i)%nat) ->
  exists e,
    generated_site_fractions site_fraction_generator g components conds_list indices
    = Raise e
    /\ ((forall g c conditions, is_Ok (site_fraction_generator g c conditions)) ->
        e = IndexError).
Proof.
  intros Hne Hall. revert g.
  induction indices as [|i indices IH]; intros g (j & Hj & Hn).
  { by apply elem_of_nil in Hj. }
  simpl. destruct (conditions_at conds_list i) as [conditions|e] eqn:Hat; simpl.
  - destruct (site_fraction_generator g components conditions) as [[sf g1]|e] eqn:Hg;
      simpl.
    + apply elem_of_cons in Hj as [->|Hj].
      { rewrite conditions_at_beyond in Hat; [done | done |].
        eapply Forall_impl; [exact Hall|]. intros kv ->. done. }
      destruct (IH g1) as (e & -> & He); [eauto|]. simpl. eauto.
    + exists e. split; [done|]. intros Htotal.
      destruct (Htotal g components conditions) as [r Hr]. congruence.
  - exists e. split; [done|]. intros _. by eapply conditions_at_raises.
Qed.

(** X9: a record without a solver block is asked for one grid point per
    flattened value.  With at least one condition and more values than the
    grid has points, collecting the record raises; the error is
    [IndexError] from [val[i]] unless a condition key or the generator
    raised first. *)
Theorem collect_record_beyond_grid (transform : Q -> Q) (phase : string)
  (acc : list (list (sf_key * Q)) * list Q * Generator) (d : Dataset) :
  d_solver d = None ->
  d_conditions d ≠ [] ->
  (grid_size d < length (concat (concat (d_values d))))%nat ->
  exists e,
    run_record transform phase acc d = Raise e
    /\ (is_Ok (conditions_list getattr_v d) ->
        (forall g c conditions, is_Ok (site_fraction_generator g c conditions)) ->
        e = IndexError).
Proof.
  intros Hs Hne Hlt. destruct acc as [[rows Y] g]. unfold collect_record. rewrite Hs.
  destruct (conditions_list getattr_v d) as [conds_list|e] eqn:Hcl; simpl.
  - apply conditions_list_lengths in Hcl as [Hall Hcl].
    destruct (generated_beyond_grid conds_list (grid_size d) (d_components d)
                (seq 0 (length (map transform (flatten (d_values d))))) g)
      as (e & -> & He); [by apply Hcl | done | |].
    + exists (grid_size d). split; [|done].
      apply elem_of_seq. rewrite length_map. unfold flatten. lia.
    + exists e. split; [done|]. intros _. exact He.
  - exists e. split; [done|]. intros [r Hr]. discriminate.
Qed.

Lemma generated_within_grid (conds_list : list (StateVariable * list Q)) (n : nat)
  (components : list string) (indices : list nat) (g : Generator) :
  Forall (fun kv => length kv.2 = n) conds_list ->
  Forall (fun i => (i < n)%nat) indices ->
  (forall g c conditions, is_Ok (site_fraction_generator g c conditions)) ->
  is_Ok (generated_site_fractions site_fraction_generator g components conds_list
           indices).
Proof.
  intros Hall Hin Htotal. revert g.
  induction Hin as [|i indices Hi _ IH]; intros g; simpl; [by eexists|].
  destruct (conditions_at_within conds_list i) as [conditions ->].
  { eapply Forall_impl; [exact Hall|]. intros kv ->. done. }
  simpl. destruct (Htotal g components conditions) as [[sf g1] ->]. simpl.
  destruct (IH g1) as [[sfs g2] ->]. simpl. by eexists.
Qed.

(** X10: a record without a solver block whose values do not outnumber the
    points of its condition grid is collected whenever its condition keys
    resolve and the generator answers: one row per value, the targets
    appended, and any surplus grid points left unused without complaint. *)
Theorem collect_record_within_grid (transform : Q -> Q) (phase : string)
  (rows : list (list (sf_key * Q))) (Y : list Q) (g : Generator) (d : Dataset) :
  d_solver d = None ->
  (length (concat (concat (d_values d))) <= grid_size d)%nat ->
  is_Ok (conditions_list getattr_v d) ->
  (forall g c conditions, is_Ok (site_fraction_generator g c conditions)) ->
  exists new g',
    run_record transform phase (rows, Y, g) d
    = Ok (rows ++ new, Y ++ map transform (concat (concat (d_values d))), g')
    /\ length new = length (concat (concat (d_values d))).
Proof.
  intros Hs Hle [conds_list Hcl] Htotal. unfold collect_record. rewrite Hs, Hcl.
  cbn [mbind result_bind].
  apply conditions_list_lengths in Hcl as [Hall _].
  destruct (generated_within_grid conds_list (grid_size d) (d_components d)
              (seq 0 (length (map transform (flatten (d_values d))))) g Hall)
    as [[new g'] Hgen]; [|done|].
  { apply Forall_forall. intros i Hi%elem_of_seq.
    rewrite length_map in Hi. unfold flatten in Hi. lia. }
  rewrite Hgen. cbn [mbind result_bind]. exists new, g'. split; [done|].
  apply generated_site_fractions_length in Hgen.
  by rewrite Hgen, length_seq, length_map.
Qed.

End CollectionProperties.

(** ** Python dicts: removal and construction *)

Section PyDictMoreProperties.
Context {K V : Type} `{EqDecision K}.
Implicit Types (d : list (K * V)) (k : K) (v : V).

Lemma get_absent d k : PyDict.get d k = None <-> k ∉ PyDict.keys d.
Proof.
  induction d as [|[k' v'] d IH]; simpl.
  - split; [intros _; apply not_elem_of_nil | done].
  - rewrite not_elem_of_cons. destruct (decide (k = k')) as [->|Hne].
    + split; [done | intros [? _]; done].
    + rewrite IH. tauto.
Qed.

Lemma keys_set d k v :
  PyDict.keys (PyDict.set d k v)
  = if decide (k ∈ PyDict.keys d) then PyDict.keys d else PyDict.keys d ++ [k].
Proof.
  destruct (decide (k ∈ PyDict.keys d)) as [Hin|Hnin].
  - induction d as [|[k' v'] d IH]; simpl in *; [by apply elem_of_nil in Hin|].
    destruct (decide (k = k')) as [->|Hne]; simpl; [done|].
    apply elem_of_cons in Hin as [?|Hin]; [done|]. by rewrite IH.
  - rewrite keys_set_fresh by done. unfold PyDict.keys. by rewrite map_app.
Qed.

Lemma NoDup_keys_set d k v :
  NoDup (PyDict.keys d) -> NoDup (PyDict.keys (PyDict.set d k v)).
Proof.
  intros Hnd. rewrite keys_set. case_decide as Hin; [done|].
  apply NoDup_app. split; [done|]. split; [|apply NoDup_singleton].
  intros x Hx ->%list_elem_of_singleton. done.
Qed.

Lemma pop_missing d k : PyDict.get d k = None -> PyDict.pop d k = Raise KeyError.
Proof.
  induction d as [|[k' v'] d IH]; simpl; [done|].
  destruct (decide (k = k')); [done|]. intros Hg. by rewrite IH.
Qed.

Lemma pop_present d k v :
  PyDict.get d k = Some v ->
  exists d',
    PyDict.pop d k = Ok d'
    /\ (forall k', k' ≠ k -> PyDict.get d' k' = PyDict.get d k')
    /\ (NoDup (PyDict.keys d) -> PyDict.get d' k = None)
    /\ (NoDup (PyDict.keys d) -> NoDup (PyDict.keys d')).
Proof.
  induction d as [|[k0 v0] d IH]; simpl; [done|].
  destruct (decide (k = k0)) as [->|Hne].
  - intros _. exists d. split; [done|]. split.
    + intros k' Hk'. by rewrite decide_False.
    + split; intros [Hnin Hnd]%NoDup_cons; [by apply get_absent | done].
  - intros (d' & -> & Hother & Hgone & Hnd)%IH. simpl.
    exists ((k0, v0) :: d'). split; [done|]. split.
    + intros k' Hk'. simpl. destruct (decide (k' = k0)); [done | by apply Hother].
    + split; intros [Hnin Hnd']%NoDup_cons; simpl.
      * rewrite decide_False by done. by apply Hgone.
      * apply NoDup_cons. split; [|by apply Hnd].
        intros Hin. apply Hnin. apply get_absent in Hin; [done|].
        destruct (PyDict.get d' k0) eqn:E; [|done]. exfalso.
        rewrite Hother in E by done. apply get_Some_keys in E. done.
Qed.

Lemma pop_set_fresh d k v :
  PyDict.get d k = None -> PyDict.pop (PyDict.set d k v) k = Ok d.
Proof.
  induction d as [|[k' v'] d IH]; simpl.
  - intros _. by rewrite decide_True.
  - destruct (decide (k = k')) as [->|Hne]; [done|]. intros Hg. simpl.
    rewrite decide_False by done. by rewrite IH.
Qed.

Lemma get_app d1 d2 k :
  PyDict.get (d1 ++ d2) k
  = match PyDict.get d1 k with Some v => Some v | None => PyDict.get d2 k end.
Proof.
  induction d1 as [|[k' v'] d1 IH]; simpl; [done|].
  by destruct (decide (k = k')).
Qed.

(** In a dict built from items the last item of a key gives its value. *)
Lemma get_of_items (items : list (K * V)) k :
  PyDict.get (PyDict.of_items items) k = PyDict.get (reverse items) k.
Proof.
  unfold PyDict.of_items.
  assert (Hgen : forall d,
    PyDict.get (fold_left (fun d kv => PyDict.set d kv.1 kv.2) items d) k
    = match PyDict.get (reverse items) k with
      | Some v => Some v
      | None => PyDict.get d k
      end).
  { induction items as [|[k0 v0] items IH]; intros d; simpl; [done|].
    rewrite IH, reverse_cons, get_app. simpl.
    destruct (PyDict.get (reverse items) k); [done|].
    destruct (decide (k = k0)) as [->|Hne].
    - apply get_set_eq.
    - by rewrite get_set_ne. }
  rewrite Hgen. by destruct (PyDict.get (reverse items) k).
Qed.

End PyDictMoreProperties.

(** ** EquilibriumSiteFractionGenerator: overrides, cache and results *)

Section EquilibriumMoreProperties.

Import EquilibriumSiteFractionGenerator.

Context {Database Model PhaseRecord : Type}.
Variable Model_new : Database -> list string -> string -> Model.
Variable PhaseRecordFactory :
  Database -> list string -> list StateVariable -> list (string * Model) -> PhaseRecord.
Variable model_constituents : Model -> list (gset string).
Variable phase_constituents : Database -> string -> list (gset string).
Variable local_equilibrium :
  Database -> list string -> list string -> list (StateVariable * Q) ->
  list (string * Model) -> PhaseRecord -> result (list (list Q)).

Local Abbreviation Gen := (@Generator Database Model PhaseRecord).
Local Abbreviation gen_records :=
  (_generate_phase_records Model_new PhaseRecordFactory model_constituents).
Local Abbreviation gen_call :=
  (call Model_new PhaseRecordFactory model_constituents local_equilibrium).

Lemma call_conditions_after (self : Gen) (components : list string)
  (conditions : list (StateVariable * Q)) :
  conditions_after (gen_call self components conditions)
  = apply_overrides (_conditions_override self) conditions.
Proof.
  unfold call. destruct (_generate_comps_key components) as [k c].
  pose proof (generate_phase_records_override Model_new PhaseRecordFactory
                model_constituents self components) as Ho.
  destruct (gen_records self components) as [s' built]. simpl in *. by rewrite Ho.
Qed.

Lemma call_conditions_get (self : Gen) (components : list string)
  (conditions : list (StateVariable * Q)) (key : StateVariable) :
  PyDict.get (conditions_after (gen_call self components conditions)) key
  = match PyDict.get (_conditions_override self) key with
    | Some value => Some value
    | None => PyDict.get conditions key
    end.
Proof.
  rewrite call_conditions_after. unfold apply_overrides.
  rewrite apply_overrides_get.
  destruct (PyDict.get (_conditions_override self) key) as [value|] eqn:E; [|done].
  rewrite decide_True; [done | by eapply get_Some_keys].
Qed.

(** X11: [remove_override_condition] raises [KeyError] for a variable that
    has no override and changes nothing else.  For a variable that has one
    it drops exactly that override: the other overrides and the caches stay,
    and a later call leaves the caller's own value of that variable in the
    conditions. *)
Theorem remove_override_condition_effect (self : Gen) (variable : StateVariable) :
  NoDup (PyDict.keys (_conditions_override self)) ->
  (PyDict.get (_conditions_override self) variable = None ->
   remove_override_condition self variable = Raise KeyError)
  /\ (forall value,
      PyDict.get (_conditions_override self) variable = Some value ->
      exists self',
        remove_override_condition self variable = Ok self'
        /\ models self' = models self
        /\ phase_records self' = phase_records self
        /\ constituents self' = constituents self
        /\ NoDup (PyDict.keys (_conditions_override self'))
        /\ (forall key, key ≠ variable ->
              PyDict.get (_conditions_override self') key
              = PyDict.get (_conditions_override self) key)
        /\ forall components conditions,
             PyDict.get (conditions_after (gen_call self' components conditions))
               variable
             = PyDict.get conditions variable).
Proof.
  intros Hnd. split.
  - intros Hnone. unfold remove_override_condition. by rewrite pop_missing.
  - intros value Hsome. unfold remove_override_condition.
    destruct (pop_present _ _ _ Hsome) as (d' & -> & Hother & Hgone & Hnd').
    simpl. eexists. split; [reflexivity|]. simpl.
    do 3 (split; [done|]). split; [by apply Hnd'|]. split; [done|].
    intros components conditions. rewrite call_conditions_get. simpl.
    by rewrite Hgone.
Qed.

(** X12: [set_override_condition] makes every later call bind the variable
    to the given value in the caller's conditions, whatever the caller put
    there and whatever override the variable had; the overrides of other
    variables stay.  Setting an override for a variable that had none and
    removing it again gives the generator back as it was. *)
Theorem set_override_condition_effect (self : Gen) (variable : StateVariable)
  (value : Q) :
  let self' := set_override_condition self variable value in
  (forall components conditions,
      PyDict.get (conditions_after (gen_call self' components conditions)) variable
      = Some value)
  /\ (forall key, key ≠ variable ->
        PyDict.get (_conditions_override self') key
        = PyDict.get (_conditions_override self) key)
  /\ (NoDup (PyDict.keys (_conditions_override self)) ->
      NoDup (PyDict.keys (_conditions_override self')))
  /\ (PyDict.get (_conditions_override self) variable = None ->
      remove_override_condition self' variable = Ok self).
Proof.
  intros self'. split; [|split; [|split]].
  - intros components conditions. rewrite call_conditions_get. simpl.
    by rewrite get_set_eq.
  - intros key Hne. simpl. by rewrite get_set_ne.
  - apply NoDup_keys_set.
  - intros Hnone. unfold remove_override_condition, self'. simpl.
    rewrite pop_set_fresh by done. simpl. by destruct self.
Qed.

Lemma generate_phase_records_lookups (self : Gen) (components : list string)
  (key : gset string) :
  is_Some (models self !! key) \/ key ≠ (_generate_comps_key components).1 ->
  models (gen_records self components).1 !! key = models self !! key
  /\ phase_records (gen_records self components).1 !! key = phase_records self !! key
  /\ constituents (gen_records self components).1 !! key = constituents self !! key.
Proof.
  unfold _generate_phase_records.
  destruct (_generate_comps_key components) as [k c] eqn:Ek. simpl.
  destruct (models self !! k) as [ms|] eqn:Hk; [done|]. simpl.
  intros [[ms Hms]|Hne].
  - assert (key ≠ k) by congruence. by rewrite !lookup_insert_ne.
  - by rewrite !lookup_insert_ne.
Qed.

(** X13: the cache never changes or drops an entry.  A bundle cached under
    a key is still the bundle under that key after any request, for the same
    components or for others, and after any call. *)
Theorem cache_entries_persist (self : Gen) (key : gset string)
  (bundle : list (string * Model) * PhaseRecord * list string)
  (components : list string) (conditions : list (StateVariable * Q)) :
  cached self key = Some bundle ->
  cached (gen_records self components).1 key = Some bundle
  /\ cached (generator_after (gen_call self components conditions)) key
     = Some bundle.
Proof.
  intros Hc.
  assert (Hrec : cached (gen_records self components).1 key = Some bundle).
  { unfold cached in *.
    destruct (models self !! key) as [ms|] eqn:Hms; [|done].
    destruct (generate_phase_records_lookups self components key)
      as (-> & -> & ->); [left; eauto|].
    by rewrite Hms. }
  split; [done|]. unfold call.
  destruct (_generate_comps_key components) as [k c].
  by destruct (gen_records self components) as [s' built].
Qed.

End EquilibriumMoreProperties.

Section EquilibriumResultProperties.

Import EquilibriumSiteFractionGenerator.

Context {Database Model PhaseRecord : Type}.
Variable Model_new : Database -> list string -> string -> Model.
Variable PhaseRecordFactory :
  Database -> list string -> list StateVariable -> list (string * Model) -> PhaseRecord.
Variable model_constituents : Model -> list (gset string).
Variable phase_constituents : Database -> string -> list (gset string).
Variable local_equilibrium :
  Database -> list string -> list string -> list (StateVariable * Q) ->
  list (string * Model) -> PhaseRecord -> result (list (list Q)).

Local Abbreviation Gen := (@Generator Database Model PhaseRecord).
Local Abbreviation gen_records :=
  (_generate_phase_records Model_new PhaseRecordFactory model_constituents).
Local Abbreviation gen_call :=
  (call Model_new PhaseRecordFactory model_constituents local_equilibrium).

(** Lines 57-58: the constituents of the phase filled in with 0. *)
Lemma get_filled (full : list string) (sfg : list (string * Q)) (c : string) :
  PyDict.get
    (fold_left (fun sfg c => PyDict.set sfg c (PyDict.get_default sfg c 0)) full sfg) c
  = match PyDict.get sfg c with
    | Some v => Some v
    | None => if decide (c ∈ full) then Some 0 else None
    end.
Proof.
  revert sfg. induction full as [|c0 full IH]; intros sfg; cbn [fold_left].
  - destruct (PyDict.get sfg c); [done|].
    case_decide as Hin; [by apply elem_of_nil in Hin | done].
  - rewrite IH. destruct (decide (c = c0)) as [->|Hne].
    + rewrite get_set_eq. unfold PyDict.get_default.
      destruct (PyDict.get sfg c0); simpl; [done|].
      destruct (decide (c0 ∈ c0 :: full)) as [_|Hn];
        [done | exfalso; apply Hn, list_elem_of_here].
    + rewrite get_set_ne by done. destruct (PyDict.get sfg c); [done|].
      destruct (decide (c ∈ full)) as [Hin|Hnin].
      * case_decide as Hin'; [done | exfalso; by apply Hin', list_elem_of_further].
      * case_decide as Hin'; [|done].
        apply elem_of_cons in Hin' as [?|?]; done.
Qed.

Lemma keys_reverse {K V} (d : list (K * V)) :
  PyDict.keys (reverse d) = reverse d.*1.
Proof. unfold PyDict.keys. apply (fmap_reverse fst). Qed.

Lemma zip_keys_subset {A B} (l : list A) (k : list B) (x : A) :
  x ∈ (zip l k).*1 -> x ∈ l.
Proof.
  revert k. induction l as [|a l IH]; intros [|b k]; simpl;
    try (by intros ?%elem_of_nil).
  intros [->|Hin]%elem_of_cons; [apply list_elem_of_here|].
  apply list_elem_of_further. by eapply IH.
Qed.

(** In a dict built from items, the value of a key is that of the last
    item with the key. *)
Lemma get_last_item {K V} `{EqDecision K} (items : list (K * V)) (i : nat)
  (k : K) (v : V) :
  items !! i = Some (k, v) ->
  (forall j v', (i < j)%nat -> items !! j = Some (k, v') -> False) ->
  PyDict.get (reverse items) k = Some v.
Proof.
  intros Hi Hlast.
  rewrite <- (take_drop_middle items i (k, v) Hi).
  rewrite reverse_app, reverse_cons, <- app_assoc, get_app.
  assert (Hnone : PyDict.get (reverse (drop (S i) items)) k = None).
  { apply get_absent. rewrite keys_reverse, elem_of_reverse.
    intros ([k' v'] & Hk & Hin)%list_elem_of_fmap. simpl in Hk. subst k'.
    apply list_elem_of_lookup in Hin as [j Hj]. rewrite lookup_drop in Hj.
    apply (Hlast (S i + j)%nat v'); [lia | done]. }
  rewrite Hnone. simpl. by rewrite decide_True.
Qed.

(** X15: the site fractions a call returns have an entry for every
    constituent of the phase.  The entries come from the first composition
    set the solver returned, the cached list of active constituents paired
    with [dof[4:]], the four leading state variables skipped: a constituent
    carries [dof[4 + i]] for the last position [i] at which it stands in
    the cached list with a value, so its only position when no species is
    on two sublattices, and the later value when one is.  A constituent of
    the phase that is not among the active ones is 0, and nothing but
    constituents of the phase or active ones has an entry. *)
Theorem call_site_fractions (self : Gen) (components : list string)
  (conditions : list (StateVariable * Q)) (sfg : list (string * Q)) :
  let out := gen_call self components conditions in
  returned out = Ok sfg ->
  exists ms pr cs dof rest,
    cached (generator_after out) (_generate_comps_key components).1 = Some (ms, pr, cs)
    /\ local_equilibrium (db self) (sorted components) [phase self]
         (conditions_after out) ms pr = Ok (dof :: rest)
    /\ (forall c, c ∈ full_constituents self -> is_Some (PyDict.get sfg c))
    /\ (forall c, c ∈ full_constituents self -> c ∉ cs -> PyDict.get sfg c = Some 0)
    /\ (forall i c v,
          cs !! i = Some c -> dof !! (4 + i)%nat = Some v ->
          (forall j, (i < j)%nat -> cs !! j = Some c -> dof !! (4 + j)%nat = None) ->
          PyDict.get sfg c = Some v)
    /\ (forall c, is_Some (PyDict.get sfg c) -> c ∈ full_constituents self \/ c ∈ cs).
Proof.
  intros out. unfold out, call.
  assert (Hsame : db (gen_records self components).1 = db self
                  /\ phase (gen_records self components).1 = phase self
                  /\ full_constituents (gen_records self components).1
                     = full_constituents self).
  { unfold _generate_phase_records.
    destruct (_generate_comps_key components) as [k c].
    by destruct (models self !! k). }
  destruct Hsame as (Hdb & Hphase & Hfull).
  unfold _generate_comps_key in *. simpl in *.
  destruct (gen_records self components) as [s' built]. simpl in *.
  unfold solve_site_fractions. rewrite Hdb, Hphase, Hfull.
  destruct (cached s' _) as [[[ms pr] cs]|]; [|discriminate].
  destruct (local_equilibrium _ _ _ _ _ _) as [comp_sets|e] eqn:Hsolve;
    simpl; [|discriminate].
  destruct comp_sets as [|dof rest]; simpl; [discriminate|].
  intros [= <-]. exists ms, pr, cs, dof, rest.
  split; [done|]. split; [done|].
  set (items := zip cs (drop 4 dof)).
  assert (Hget : forall c,
    PyDict.get
      (fold_left (fun sfg c => PyDict.set sfg c (PyDict.get_default sfg c 0))
         (full_constituents self) (PyDict.of_items items)) c
    = match PyDict.get (reverse items) c with
      | Some v => Some v
      | None => if decide (c ∈ full_constituents self) then Some 0 else None
      end).
  { intros c. by rewrite get_filled, get_of_items. }
  split; [|split; [|split]].
  - intros c Hc. rewrite Hget. destruct (PyDict.get (reverse items) c); [eauto|].
    rewrite decide_True by done. eauto.
  - intros c Hc Hnot. rewrite Hget.
    assert (Hnone : PyDict.get (reverse items) c = None).
    { apply get_absent. rewrite keys_reverse, elem_of_reverse.
      intros Hin%zip_keys_subset. done. }
    rewrite Hnone. by rewrite decide_True.
  - intros i c v Hc Hv Hlast. rewrite Hget.
    rewrite (get_last_item items i c v); [done| |].
    + unfold items. rewrite lookup_zip_with, Hc. simpl.
      rewrite lookup_drop. cbn [Nat.add]. by rewrite Hv.
    + intros j v' Hj Hitem. unfold items in Hitem.
      apply lookup_zip_with_Some in Hitem as (c' & v'' & [= <- <-] & Hcj & Hvj).
      rewrite lookup_drop in Hvj. specialize (Hlast j Hj Hcj).
      cbn [Nat.add] in Hlast, Hvj. congruence.
  - intros c. rewrite Hget.
    destruct (PyDict.get (reverse items) c) as [v|] eqn:E.
    + intros _. right. apply get_Some_keys in E.
      rewrite keys_reverse, elem_of_reverse in E.
      by eapply zip_keys_subset.
    + case_decide as Hin; [by left | by intros [? ?]].
Qed.

Lemma string_le_total : Total string_le.
Proof. intros s1 s2. unfold string_le. apply String.leb_total. Qed.

(** X16: the cache key of a component collection is the set of its
    elements: two collections share a key exactly when they have the same
    elements, whatever their order and repetitions.  The list handed to
    pycalphad is the collection sorted, repetitions kept.  A request for
    components with other elements than those cached constructs its own
    model and phase records. *)
Theorem comps_key_same_elements (A B : list string) :
  ((_generate_comps_key A).1 = (_generate_comps_key B).1
   <-> forall c, c ∈ A <-> c ∈ B)
  /\ (_generate_comps_key A).2 ≡ₚ A
  /\ Sorted string_le (_generate_comps_key A).2
  /\ forall self : Gen,
       models self !! (_generate_comps_key B).1 = None ->
       ~ (forall c, c ∈ A <-> c ∈ B) ->
       (gen_records (gen_records self A).1 B).2
       = [BuildModel (sorted B); BuildPhaseRecords (sorted B)].
Proof.
  assert (Hkey : (_generate_comps_key A).1 = (_generate_comps_key B).1
                 <-> forall c, c ∈ A <-> c ∈ B).
  { unfold _generate_comps_key. simpl. rewrite !set_of_sorted. split.
    - intros Heq c. by rewrite <- !(elem_of_list_to_set (C := gset string)), Heq.
    - intros Hel. apply set_eq. intros c. rewrite !elem_of_list_to_set. apply Hel. }
  split; [done|]. split; [apply merge_sort_Permutation|].
  split; [apply Sorted_merge_sort, string_le_total|].
  intros self Hnone Hdiff.
  assert (Hne : (_generate_comps_key B).1 ≠ (_generate_comps_key A).1)
    by (intros Heq; apply Hdiff, Hkey; done).
  destruct (generate_phase_records_lookups Model_new PhaseRecordFactory
              model_constituents self A (_generate_comps_key B).1)
    as (Hms & _); [by right|].
  unfold _generate_phase_records at 1.
  destruct (_generate_comps_key B) as [kb cb] eqn:EB. simpl in *.
  rewrite Hms, Hnone.
  assert (cb = sorted B) as -> by (unfold _generate_comps_key in EB; congruence).
  done.
Qed.

End EquilibriumResultProperties.

(** ** SiteFractionGenerator: what the composition holds *)

Section DirectMoreProperties.

Import SiteFractionGenerator.

Lemma composition_fold_dom (conditions : list (StateVariable * Q))
  (composition : gmap string Q) :
  dom (fold_left
         (fun composition '(key, val) =>
            if is_MoleFraction key
            then apply_mole_fraction composition key val
            else composition)
         conditions composition)
  = dom composition ∪ list_to_set (named_species conditions).
Proof.
  revert composition. induction conditions as [|[key val] conditions IH];
    intros composition.
  - cbn [fold_left]. change (named_species []) with (@nil string).
    by rewrite list_to_set_nil, union_empty_r_L.
  - cbn [fold_left]. rewrite IH.
    destruct key as [| | | |species]; cbn [is_MoleFraction]; [done..|].
    unfold apply_mole_fraction.
    rewrite mole_fraction_species, dom_insert_L, dom_fmap_L.
    change (named_species ((X species, val) :: conditions))
      with (species :: named_species conditions).
    rewrite list_to_set_cons. apply set_eq. intros x.
    rewrite !elem_of_union. tauto.
Qed.

(** X18: the composition has an entry for every component except the
    vacancy [VA], and for every species a mole-fraction condition names,
    tracked or not; a mole fraction of [VA] itself puts the vacancy back. *)
Theorem composition_domain (components : list string)
  (conditions : list (StateVariable * Q)) :
  dom (composition_of components conditions)
  = (list_to_set components ∖ list_to_set ["VA"%string])
    ∪ list_to_set (named_species conditions).
Proof.
  unfold composition_of. by rewrite composition_fold_dom, dom_gset_to_gmap.
Qed.

End DirectMoreProperties.

(** ** SiteFractionGenerator: the values of the composition *)

Section CompositionProperties.

Import Composition.

Context {num : Type}.
Variable one : num.
Variable sub : num -> num -> num.

(** An entry that no later condition names is lowered by each mole-fraction
    value in turn. *)
Lemma composition_fold_other (post : list (StateVariable * num))
  (composition : gmap string num) (c : string) :
  c ∉ named post ->
  fold_left
    (fun composition '(key, val) =>
       if is_MoleFraction key
       then apply_mole_fraction sub composition key val
       else composition)
    post composition !! c
  = (fun x => fold_left sub (mole_fractions post) x) <$> composition !! c.
Proof.
  revert composition. induction post as [|[key val] post IH]; intros composition Hc.
  - simpl. by destruct (composition !! c).
  - cbn [fold_left]. destruct key as [| | | |species]; cbn [is_MoleFraction].
    1-4: by apply IH.
    assert (Hne : species ≠ c /\ c ∉ named post).
    { unfold named in Hc. simpl in Hc. apply not_elem_of_cons in Hc as [? ?].
      split; [congruence | done]. }
    destruct Hne as [Hne Hc'].
    rewrite (IH _ Hc'). unfold apply_mole_fraction.
    rewrite mole_fraction_species, lookup_insert_ne, lookup_fmap by done.
    by destruct (composition !! c).
Qed.

(** X17: the values of the composition, for numbers of any kind and so for
    Python's floats.  A component that no mole-fraction condition names
    ends at 1 lowered by each mole-fraction value in turn, in the order of
    the mapping: [((1 - v1) - v2) - ...], one subtraction after the other.
    A species that a condition names is bound to that value and then
    lowered in the same way by every mole-fraction condition that comes
    after it, none of which names it again: the mapping's order matters,
    and no value is checked to lie between 0 and 1. *)
Theorem composition_values (components : list string) :
  (forall conditions (c : string),
      c ∈ components -> c ≠ "VA"%string -> c ∉ named conditions ->
      composition_of one sub components conditions !! c
      = Some (fold_left sub (mole_fractions conditions) one))
  /\ (forall before after species val,
      species ∉ named after ->
      composition_of one sub components (before ++ (X species, val) :: after)
        !! species
      = Some (fold_left sub (mole_fractions after) val)).
Proof.
  split.
  - intros conditions c Hin Hva Hc. unfold composition_of.
    rewrite (composition_fold_other conditions _ c Hc).
    rewrite lookup_gset_to_gmap, option_guard_True; [done|].
    rewrite elem_of_difference, !elem_of_list_to_set, list_elem_of_singleton. done.
  - intros before after species val Hc. unfold composition_of.
    rewrite fold_left_app. cbn [fold_left is_MoleFraction].
    rewrite (composition_fold_other after _ species Hc).
    unfold apply_mole_fraction at 1.
    by rewrite mole_fraction_species, lookup_insert_eq.
Qed.

End CompositionProperties.

(** On exact rationals the composition is the one of
    [SiteFractionGenerator]. *)
Lemma composition_of_rationals (components : list string)
  (conditions : list (StateVariable * Q)) :
  Composition.composition_of 1 Qminus components conditions
  = SiteFractionGenerator.composition_of components conditions.
Proof. reflexivity. Qed.

(** ** fit: the value of the fitted model *)

Section ValueProperties.

Import Fit Merge.

Variable lstsq : list (list Q) -> list Q -> result (list Q).
Variable np_log : Q -> Q.
Variable getattr_v : string -> result StateVariable.
Context {Generator : Type}.
Variable site_fraction_generator :
  Generator -> list string -> list (StateVariable * Q) ->
  result (list (sf_key * Q) * Generator).
Variable generate_multiplier : MobilityTerm -> list (sf_key * Q) -> result Q.
Variable _vname : nat -> string.
Context {Database : Type}.
Variable find_last_variable : Database -> nat.

Lemma Qsum_app (l1 l2 : list Q) : Qsum (l1 ++ l2) == Qsum l1 + Qsum l2.
Proof.
  induction l1 as [|x l1 IH]; simpl; [ring|]. rewrite IH. ring.
Qed.

Lemma eval_merged_expr (env : string -> Q) (temp : Q)
  (key : list (list string) * nat) (cs : list contribution) :
  eval env temp (merged_expr key cs)
  == Qsum (map (fun c => env (c_name c) * eval env temp (c_multiplier c))
             (filter (fun c => c_key c = key) cs)).
Proof.
  induction cs as [|c cs IH] using rev_ind; [reflexivity|].
  rewrite merged_expr_snoc, filter_app, map_app, Qsum_app, filter_cons, filter_nil.
  destruct (decide (c_key c = key)); simpl; rewrite IH; ring.
Qed.

Lemma window_inside (lo hi temp : Q) :
  lo <= temp -> temp < hi -> Qle_bool lo temp && negb (Qle_bool hi temp) = true.
Proof.
  intros Hlo Hhi. apply andb_true_iff. split; [by apply Qle_bool_iff|].
  apply negb_true_iff. destruct (Qle_bool hi temp) eqn:E; [|done].
  apply Qle_bool_iff in E. lra.
Qed.

Lemma window_outside (lo hi temp : Q) :
  temp < lo \/ hi <= temp -> Qle_bool lo temp && negb (Qle_bool hi temp) = false.
Proof.
  intros [Hlo|Hhi]; apply andb_false_iff.
  - left. destruct (Qle_bool lo temp) eqn:E; [|done]. apply Qle_bool_iff in E. lra.
  - right. apply negb_false_iff. by apply Qle_bool_iff.
Qed.

(** The summands of one pass, for the terms of a key. *)
Lemma pass_sum (env : string -> Q) (temp : Q) (key : list (list string) * nat)
  (multiplier : Expr) (pairs : list (MobilityTerm * Q)) (v : nat) :
  Qsum (map (fun c => c_coef c * eval env temp (c_multiplier c))
          (filter (fun c => c_key c = key)
             (number_from _vname v (map (fun tc => (tc.1, tc.2, multiplier)) pairs))))
  == Qsum (key_coefficients key pairs) * eval env temp multiplier.
Proof.
  unfold key_coefficients. revert v.
  induction pairs as [|[term coef] pairs IH]; intros v; simpl; [ring|].
  rewrite !filter_cons. simpl.
  destruct (decide (term_key term = key)); simpl; rewrite IH; ring.
Qed.

(** X19: what the returned model evaluates to.  With symbol names that
    differ for different indices, every term of the model [fit] returns,
    evaluated with the returned symbols at a temperature from 1 up to but
    not including 6000, is the sum of the coefficients that the best [Q]
    fit of the run gives the terms of its key, plus the temperature times
    the sum of those the best [D0] fit gives them; at any other temperature
    it is 0.  The best models and fits are the ones the two passes of the
    run select. *)
Theorem fitted_model_value
  (datasets : list Dataset) (database : Database) (components : list string)
  (phase diffusing_species : string)
  (Q_test_models D0_test_models : list (list MobilityTerm))
  (g g' : Generator) (p : Q)
  (model : list MobilityTerm) (symbols : list (string * Expr)) :
  Inj (=) (=) _vname ->
  fit lstsq np_log getattr_v site_fraction_generator generate_multiplier _vname
    find_last_variable datasets database components phase diffusing_species
    Q_test_models D0_test_models g p = Ok (model, symbols, g') ->
  exists best_q fit_q best_d fit_d,
    best_of_passes lstsq np_log getattr_v site_fraction_generator
      generate_multiplier datasets components phase diffusing_species
      Q_test_models D0_test_models g p
    = Ok (best_q, fit_q, best_d, fit_d, g')
    /\ forall f temp,
         f ∈ model ->
         (1 <= temp -> temp < 6000 ->
          eval (symbol_env symbols temp) temp (expr f)
          == Qsum (key_coefficients (term_key f) (zip best_q fit_q))
             + temp * Qsum (key_coefficients (term_key f) (zip best_d fit_d)))
         /\ (temp < 1 \/ 6000 <= temp ->
             eval (symbol_env symbols temp) temp (expr f) == 0).
Proof.
  intros Hinj Hfit.
  apply fit_selected in Hfit
    as (best_q & fit_q & best_d & fit_d & Hsel & Hmodel & Hsymbols).
  exists best_q, fit_q, best_d, fit_d. split; [done|].
  cbv zeta in Hmodel, Hsymbols.
  rewrite register_number_from in Hsymbols by done.
  set (cs := number_from _vname (find_last_variable database)
               (flat_selection [(EConst 1, zip best_q fit_q);
                                (ETemperature, zip best_d fit_d)])) in *.
  intros f temp. rewrite Hmodel. intros (f0 & -> & Hf0)%list_elem_of_fmap.
  change (expr (close_over_temperature f0)) with (EPiecewise (expr f0) 1 6000).
  change (term_key (close_over_temperature f0)) with (term_key f0).
  rewrite (merged_model_expr _ _ Hf0). cbn [eval]. split.
  - intros Hlo Hhi. rewrite (window_inside 1 6000 temp Hlo Hhi).
    rewrite eval_merged_expr.
    assert (Henv : forall c, c ∈ cs -> symbol_env symbols temp (c_name c) = c_coef c).
    { intros c Hc. unfold symbol_env. rewrite Hsymbols.
      rewrite get_symbol_table; [|by apply NoDup_names | done].
      cbn [eval]. by rewrite window_inside by lra. }
    erewrite map_ext_in.
    2:{ intros c Hc%list_elem_of_In%list_elem_of_filter. destruct Hc as [_ Hc].
        rewrite (Henv c Hc). reflexivity. }
    unfold cs, flat_selection. cbn [flat_map]. rewrite app_nil_r.
    rewrite number_from_app, filter_app, map_app, Qsum_app, !pass_sum.
    simpl. ring.
  - intros Hout. by rewrite (window_outside 1 6000 temp Hout).
Qed.

(** *** Rows read from a solver block *)

Lemma configuration_fold_scalars (phase : string) (species : list string)
  (occupancies : list Q) (start : nat) (sf : list (sf_key * Q)) :
  (forall i s, SiteFraction phase i s ∈ PyDict.keys sf -> (i < start)%nat) ->
  (fold_left
     (fun '(sub_index, sf) '(species, occs) =>
        (S sub_index,
         fold_left
           (fun sf '(s, o) => PyDict.set sf (SiteFraction phase sub_index s) o)
           (zip (atleast_1d species) (atleast_1d occs)) sf))
     (zip (Scalar <$> species) (Scalar <$> occupancies)) (start, sf)).2
  = sf ++ imap (fun i so => (SiteFraction phase (start + i) so.1, so.2))
            (zip species occupancies).
Proof.
  revert occupancies start sf.
  induction species as [|s species IH]; intros [|o occupancies] start sf Hkeys;
    simpl; try (by rewrite app_nil_r).
  rewrite IH.
  - rewrite keys_set_fresh.
    + rewrite <- app_assoc. simpl. rewrite Nat.add_0_r. do 2 f_equal.
      apply imap_ext. intros i [s' o'] _. simpl. do 2 f_equal. lia.
    + intros Hin%Hkeys. lia.
  - intros i s' Hin. rewrite keys_set in Hin.
    destruct (decide (SiteFraction phase start s ∈ PyDict.keys sf)) as [Hold|_].
    + apply Hkeys in Hin. lia.
    + apply elem_of_app in Hin as [Hin|Hin%list_elem_of_singleton].
      * apply Hkeys in Hin. lia.
      * injection Hin as -> _. lia.
Qed.

(** X20: a configuration that lists one species with one occupancy for
    each sublattice gives a row with one site fraction per sublattice, keyed
    by the phase, the index of the sublattice counted from 0 and the
    species, in the order of the sublattices; a surplus of species or of
    occupancies is dropped without complaint. *)
Theorem configuration_site_fractions_scalars (phase : string)
  (species : list string) (occupancies : list Q) :
  configuration_site_fractions phase (Scalar <$> species) (Scalar <$> occupancies)
  = imap (fun i so => (SiteFraction phase i so.1, so.2)) (zip species occupancies).
Proof.
  unfold configuration_site_fractions.
  rewrite (configuration_fold_scalars phase species occupancies O []); [done|].
  intros i s Hin. by apply elem_of_nil in Hin.
Qed.

End ValueProperties.

(** ** The further properties on the small runs *)

Section MoreWitnesses.

Import Fit Merge.

Lemma select_best_least_aicc_witness :
  exists best_model best_fit index aicc,
    select_best Example.lstsq Example.np_log Example.generate_multiplier
      [[Example.term_A]; [MobilityTerm_new [["B"%string]] 0]] [[]; []; []]
      [1; 2; 3] 1 = Ok (best_model, best_fit)
    /\ ([[Example.term_A]; [MobilityTerm_new [["B"%string]] 0]] : list (list MobilityTerm))
         !! index = Some best_model
    /\ (X ← design_matrix Example.generate_multiplier best_model [[]; []; []];
        LeastSquares.least_squares_fit Example.lstsq Example.np_log X [1; 2; 3] 1)
       = Ok (best_fit, aicc).
Proof.
  destruct (select_best Example.lstsq Example.np_log Example.generate_multiplier
              [[Example.term_A]; [MobilityTerm_new [["B"%string]] 0]] [[]; []; []]
              [1; 2; 3] 1) as [[best_model best_fit]|e] eqn:Hsel;
    [|vm_compute in Hsel; discriminate].
  destruct (select_best_least_aicc Example.lstsq Example.np_log
              Example.generate_multiplier _ _ _ _ _ _ Hsel)
    as (index & aicc & Hindex & Hscore & _).
  exists best_model, best_fit, index, aicc. split; [reflexivity|].
  split; [exact Hindex | exact Hscore].
Defined.

Lemma fit_ignores_other_records_witness :
  fit Example.lstsq Example.np_log Example.getattr_v Example.site_fraction_generator
    Example.generate_multiplier Example.vname Example.find_last_variable
    ([Example.record_Q] ++ record_other_phase :: [Example.record_D0])
    Example.database ["A"%string] "BCC" "A" [[Example.term_A]] [[Example.term_A]] tt 1
  = Example.run.
Proof.
  apply (fit_ignores_other_records Example.lstsq Example.np_log Example.getattr_v
           Example.site_fraction_generator Example.generate_multiplier Example.vname
           Example.find_last_variable [Example.record_Q] [Example.record_D0]
           record_other_phase).
  left. discriminate.
Defined.

Lemma fit_without_data_raises_witness :
  exists e,
    fit Example.lstsq Example.np_log Example.getattr_v Example.site_fraction_generator
      Example.generate_multiplier Example.vname Example.find_last_variable
      [Example.record_Q] Example.database ["A"%string] "BCC" "A"
      [[Example.term_A]] [[Example.term_A]] tt 1 = Raise e.
Proof.
  apply (fit_without_data_raises Example.lstsq Example.np_log Example.getattr_v
           Example.site_fraction_generator Example.generate_multiplier Example.vname
           Example.find_last_variable [Example.record_Q]).
  right. vm_compute. reflexivity.
Defined.

Lemma collect_targets_in_order_witness :
  exists rows Y,
    collect Example.getattr_v Example.site_fraction_generator q_transform "BCC" tt
      [Example.record_Q; Example.record_D0] = Ok (rows, Y, tt)
    /\ Y = [q_transform 250000; q_transform 2].
Proof.
  destruct (collect Example.getattr_v Example.site_fraction_generator q_transform
              "BCC" tt [Example.record_Q; Example.record_D0])
    as [[[rows Y] []]|e] eqn:Hrun; [|vm_compute in Hrun; discriminate].
  exists rows, Y. split; [reflexivity|].
  exact (collect_targets_in_order Example.getattr_v Example.site_fraction_generator
           q_transform "BCC" _ tt tt rows Y Hrun).
Defined.

Lemma collect_solver_records_bypass_generator_witness :
  exists rows Y,
    collect Example.getattr_v Example.site_fraction_generator q_transform "BCC" tt
      [Example.record_D0; Example.record_mismatched] = Ok (rows, Y, tt)
    /\ length rows = 3%nat.
Proof.
  destruct (collect Example.getattr_v Example.site_fraction_generator q_transform
              "BCC" tt [Example.record_D0; Example.record_mismatched])
    as [[[rows Y] []]|e] eqn:Hrun; [|vm_compute in Hrun; discriminate].
  exists rows, Y. split; [reflexivity|].
  assert (Hall : Forall (fun d => is_Some (d_solver d))
                   [Example.record_D0; Example.record_mismatched])
    by (repeat constructor; eexists; reflexivity).
  destruct (collect_solver_records_bypass_generator Example.getattr_v
              Example.site_fraction_generator q_transform "BCC" _ tt tt rows Y
              Hall Hrun) as [_ ->].
  reflexivity.
Defined.

Lemma collect_record_beyond_grid_witness :
  collect_record Example.getattr_v Example.site_fraction_generator q_transform "BCC"
    ([], [], tt) record_two_values = Raise IndexError.
Proof.
  assert (Hs : d_solver record_two_values = None) by reflexivity.
  assert (Hc : d_conditions record_two_values ≠ []) by discriminate.
  assert (Hn : (grid_size record_two_values
                < length (concat (concat (d_values record_two_values))))%nat)
    by (vm_compute; lia).
  destruct (collect_record_beyond_grid Example.getattr_v
              Example.site_fraction_generator q_transform "BCC" ([], [], tt)
              record_two_values Hs Hc Hn) as (e & -> & He).
  f_equal. apply He.
  - eexists. vm_compute. reflexivity.
  - intros g c conditions. eexists. reflexivity.
Defined.

Lemma collect_record_within_grid_witness :
  exists new g',
    collect_record Example.getattr_v Example.site_fraction_generator q_transform "BCC"
      ([], [], tt) Example.record_Q
    = Ok ([] ++ new, [] ++ map q_transform
                              (concat (concat (d_values Example.record_Q))), g')
    /\ length new = 1%nat.
Proof.
  assert (Hs : d_solver Example.record_Q = None) by reflexivity.
  assert (Hn : (length (concat (concat (d_values Example.record_Q)))
                <= grid_size Example.record_Q)%nat) by (vm_compute; lia).
  assert (Hk : is_Ok (conditions_list Example.getattr_v Example.record_Q))
    by (eexists; vm_compute; reflexivity).
  exact (collect_record_within_grid Example.getattr_v
           Example.site_fraction_generator q_transform "BCC" [] [] tt
           Example.record_Q Hs Hn Hk
           (fun g c conditions => ex_intro _ _ eq_refl)).
Defined.

Lemma remove_override_condition_effect_witness :
  EquilibriumSiteFractionGenerator.remove_override_condition
    EquilibriumExample.generator T = Raise KeyError
  /\ exists self',
       EquilibriumSiteFractionGenerator.remove_override_condition
         EquilibriumExample.generator N = Ok self'
       /\ PyDict.get (EquilibriumSiteFractionGenerator._conditions_override self') GE
          = Some 0.
Proof.
  assert (Hnd : NoDup (PyDict.keys
                         (EquilibriumSiteFractionGenerator._conditions_override
                            EquilibriumExample.generator))).
  { simpl. apply NoDup_cons. split; [intros [=]%list_elem_of_singleton|].
    apply NoDup_singleton. }
  destruct (remove_override_condition_effect EquilibriumExample.Model_new
              EquilibriumExample.PhaseRecordFactory
              EquilibriumExample.model_constituents
              EquilibriumExample.local_equilibrium
              EquilibriumExample.generator T Hnd) as [Hmissing _].
  destruct (remove_override_condition_effect EquilibriumExample.Model_new
              EquilibriumExample.PhaseRecordFactory
              EquilibriumExample.model_constituents
              EquilibriumExample.local_equilibrium
              EquilibriumExample.generator N Hnd) as [_ Hpresent].
  split; [apply Hmissing; reflexivity|].
  destruct (Hpresent 1 eq_refl) as (self' & Hrem & _ & _ & _ & _ & Hother & _).
  exists self'. split; [exact Hrem|]. rewrite Hother; [reflexivity | discriminate].
Defined.

Lemma set_override_condition_effect_witness :
  EquilibriumSiteFractionGenerator.remove_override_condition
    (EquilibriumSiteFractionGenerator.set_override_condition
       EquilibriumExample.generator P 101325) P
  = Ok EquilibriumExample.generator.
Proof.
  destruct (set_override_condition_effect EquilibriumExample.Model_new
              EquilibriumExample.PhaseRecordFactory
              EquilibriumExample.model_constituents
              EquilibriumExample.local_equilibrium
              EquilibriumExample.generator P 101325) as (_ & _ & _ & Hround).
  apply Hround. reflexivity.
Defined.

Lemma cache_entries_persist_witness :
  exists bundle,
    EquilibriumSiteFractionGenerator.cached
      (EquilibriumSiteFractionGenerator.generator_after EquilibriumExample.call_example)
      (list_to_set ["A"; "B"]%string) = Some bundle
    /\ EquilibriumSiteFractionGenerator.cached
         (EquilibriumSiteFractionGenerator._generate_phase_records
            EquilibriumExample.Model_new EquilibriumExample.PhaseRecordFactory
            EquilibriumExample.model_constituents
            (EquilibriumSiteFractionGenerator.generator_after
               EquilibriumExample.call_example)
            ["A"; "VA"]%string).1
         (list_to_set ["A"; "B"]%string) = Some bundle.
Proof.
  destruct (EquilibriumSiteFractionGenerator.cached
              (EquilibriumSiteFractionGenerator.generator_after
                 EquilibriumExample.call_example)
              (list_to_set ["A"; "B"]%string)) as [bundle|] eqn:Hc;
    [|vm_compute in Hc; discriminate].
  exists bundle. split; [reflexivity|].
  exact (proj1 (cache_entries_persist EquilibriumExample.Model_new
                  EquilibriumExample.PhaseRecordFactory
                  EquilibriumExample.model_constituents
                  EquilibriumExample.local_equilibrium _ _ bundle
                  ["A"; "VA"]%string [] Hc)).
Defined.

Lemma call_site_fractions_witness :
  let model_constituents :=
    fun comps : list string => [list_to_set comps : gset string; list_to_set comps] in
  let local_equilibrium :=
    fun (_ : unit) (_ _ : list string) (_ : list (StateVariable * Q))
        (_ : list (string * list string)) (_ : list string) =>
      Ok [[0; 1; 101325; 1000; 1 # 4; 3 # 4; 2 # 5; 3 # 5]] in
  exists sfg,
    EquilibriumSiteFractionGenerator.returned
      (EquilibriumSiteFractionGenerator.call EquilibriumExample.Model_new
         EquilibriumExample.PhaseRecordFactory model_constituents local_equilibrium
         EquilibriumExample.generator ["B"; "A"]%string [(T, 1000)]) = Ok sfg
    /\ PyDict.get sfg "A"%string = Some (2 # 5)
    /\ PyDict.get sfg "VA"%string = Some 0.
Proof.
  intros model_constituents local_equilibrium.
  destruct (EquilibriumSiteFractionGenerator.returned _) as [sfg|e] eqn:Hret;
    [|vm_compute in Hret; discriminate].
  exists sfg. split; [reflexivity|].
  destruct (call_site_fractions EquilibriumExample.Model_new
              EquilibriumExample.PhaseRecordFactory model_constituents
              local_equilibrium EquilibriumExample.generator ["B"; "A"]%string
              [(T, 1000)] sfg Hret)
    as (ms & pr & cs & dof & rest & Hcached & Hsolve & _ & Hzero & Hlast & _).
  vm_compute in Hcached. injection Hcached as <- <- <-.
  injection Hsolve as <- <-.
  split.
  - apply (Hlast 2%nat); [reflexivity | reflexivity |].
    intros [|[|[|[|j]]]] Hj Hc; try lia; [discriminate | reflexivity].
  - apply Hzero.
    + vm_compute. do 2 apply list_elem_of_further. apply list_elem_of_here.
    + intros Hin. repeat (apply elem_of_cons in Hin as [Hin|Hin]; [discriminate|]).
      by apply elem_of_nil in Hin.
Defined.

Lemma comps_key_same_elements_witness :
  (EquilibriumSiteFractionGenerator._generate_comps_key ["B"; "A"; "B"]%string).1
  = (EquilibriumSiteFractionGenerator._generate_comps_key ["A"; "B"]%string).1.
Proof.
  destruct (comps_key_same_elements EquilibriumExample.Model_new
              EquilibriumExample.PhaseRecordFactory
              EquilibriumExample.model_constituents
              ["B"; "A"; "B"]%string ["A"; "B"]%string) as [Hkey _].
  apply Hkey. intros c. rewrite !elem_of_cons, !elem_of_nil. tauto.
Defined.

Lemma composition_values_witness :
  let conditions :=
    [] ++ (X "B", Binary64.three_tenths) :: [(X "C", Binary64.two_tenths)] in
  Composition.composition_of PrimFloat.one PrimFloat.sub
    ["A"; "B"; "C"; "VA"]%string conditions !! "B"%string
  = Some Binary64.below_one_tenth
  /\ Composition.composition_of PrimFloat.one PrimFloat.sub
       ["A"; "B"; "C"; "VA"]%string conditions !! "A"%string
     = Some Binary64.below_one_half.
Proof.
  intros conditions.
  destruct (composition_values PrimFloat.one PrimFloat.sub
              ["A"; "B"; "C"; "VA"]%string) as [Hother Hnamed].
  split.
  - unfold conditions. rewrite Hnamed; [vm_compute; reflexivity|].
    intros Hin. apply list_elem_of_singleton in Hin. discriminate.
  - rewrite (Hother conditions "A"%string);
      [vm_compute; reflexivity | apply list_elem_of_here | discriminate |].
    intros Hin. repeat (apply elem_of_cons in Hin as [Hin|Hin]; [discriminate|]).
    by apply elem_of_nil in Hin.
Defined.

Lemma fitted_model_value_witness :
  exists model symbols,
    Example.run = Ok (model, symbols, tt)
    /\ model ≠ []
    /\ forall f, f ∈ model ->
         eval (symbol_env symbols 1000) 1000 (expr f) == - 250000 + 1000 * (8314 # 1000).
Proof.
  destruct Example.run as [[[model symbols] []]|e] eqn:Hrun;
    [|vm_compute in Hrun; discriminate].
  exists model, symbols. split; [reflexivity|].
  destruct (fitted_model_value Example.lstsq Example.np_log
              Example.getattr_v Example.site_fraction_generator
              Example.generate_multiplier Example.vname
              Example.find_last_variable
              [Example.record_Q; Example.record_D0] Example.database
              ["A"%string] "BCC"%string "A"%string [[Example.term_A]]
              [[Example.term_A]] tt tt 1 model symbols
              example_vname_inj Hrun)
    as (bq & fq & bd & fd & Hsel & Hvalue).
  vm_compute in Hsel. injection Hsel as <- <- <- <-.
  vm_compute in Hrun. injection Hrun as <- <-.
  split; [discriminate|].
  intros f Hf. destruct (Hvalue f 1000 Hf) as [Hin _].
  assert (Hlo : 1 <= 1000) by lra.
  assert (Hhi : 1000 < 6000) by lra.
  rewrite (Hin Hlo Hhi).
  apply list_elem_of_singleton in Hf as ->.
  vm_compute. reflexivity.
Defined.

End MoreWitnesses.
